(** * Langflow frontend: API code samples, bulk duplication, file rows

    A shallow embedding of four pieces of the frontend:
    - [getJsApiCode] and [getNewJsApiCode], the string templates that
      produce sample client code for the run endpoint;
    - [useDuplicateFlows], the hook whose [handleDuplicate] fans out one
      creation request per selected flow and chains a continuation on
      [Promise.all];
    - [FileRendererComponent], the row of the file manager with its
      rename-in-place editor and upload-progress display.

    JavaScript strings are modelled as [string] (one [ascii] per code
    unit, so the model covers text in the Latin-1 range), numbers of the
    tweaks payload as integers, and the upload progress as the rational
    that a double denotes ([Double]). The code samples are also spelled
    token by token ([Sample]), with a parser that computes the request
    that a sample sends. *)

From Stdlib Require Import ZArith QArith Qround Qabs Qpower String Ascii List Bool Lia DecimalString.
From stdpp Require Import base gmap strings list.
Import ListNotations.
Local Open Scope string_scope.
Set Warnings "-register-all".
#[local] Arguments String.append : simpl nomatch.

(** ** Platform layer: values, truthiness, JSON.stringify *)

Module JS.

(** Characters that a Rocq literal cannot hold directly. *)
Definition dq : string := String "034" EmptyString.
Definition bslash : string := String "092" EmptyString.
Definition nl : string := String "010" EmptyString.
Definition tab : string := String "009" EmptyString.

(** Plain data values, as they reach [JSON.stringify]. The properties
    of an object are listed in enumeration order. *)
Inductive value : Type :=
| Undefined
| Null
| Bool (b : bool)
| Num (n : Z)
| Str (s : string)
| Arr (elems : list value)
| Obj (props : list (string * value)).

(** ToBoolean. *)
Definition truthy (v : value) : bool :=
  match v with
  | Undefined | Null => false
  | Bool b => b
  | Num n => negb (n =? 0)%Z
  | Str s => negb (String.eqb s "")
  | Arr _ | Obj _ => true
  end.

(** ToBoolean on an optional string (undefined, or a string). *)
Definition truthy_str (o : option string) : bool :=
  match o with
  | None => false
  | Some s => negb (String.eqb s "")
  end.

(** ToString inside a template literal, for a possibly undefined string. *)
Definition interpolate (o : option string) : string :=
  match o with
  | Some s => s
  | None => "undefined"
  end.

(** [a || b] on optional strings whose right operand is a string. *)
Definition or_else (a : option string) (b : string) : string :=
  if truthy_str a then interpolate a else b.

(** ToString of a boolean and of an integral number. The digits of
    [string_of_Z] are those that the platform prints for an integer
    that a double holds exactly and that is below 10^21 in absolute
    value; beyond, the platform rounds the number and prints an
    exponent, which the model does not follow. *)
Definition string_of_bool (b : bool) : string :=
  if b then "true" else "false".

Definition string_of_Z (n : Z) : string :=
  NilZero.string_of_int (Z.to_int n).

(** QuoteJSONString: the escapes of JSON.stringify, code unit by code unit. *)
Definition hex_digit (n : nat) : string :=
  String.substring n 1 "0123456789abcdef".

Definition escape_char (c : ascii) : string :=
  let n := nat_of_ascii c in
  if Nat.eqb n 8 then bslash ++ "b"
  else if Nat.eqb n 9 then bslash ++ "t"
  else if Nat.eqb n 10 then bslash ++ "n"
  else if Nat.eqb n 12 then bslash ++ "f"
  else if Nat.eqb n 13 then bslash ++ "r"
  else if Nat.eqb n 34 then bslash ++ dq
  else if Nat.eqb n 92 then bslash ++ bslash
  else if Nat.ltb n 32
       then bslash ++ "u00" ++ hex_digit (Nat.div n 16) ++ hex_digit (Nat.modulo n 16)
  else String c EmptyString.

Fixpoint escape (s : string) : string :=
  match s with
  | EmptyString => EmptyString
  | String c rest => escape_char c ++ escape rest
  end.

Definition QuoteJSONString (s : string) : string := dq ++ escape s ++ dq.

Fixpoint spaces (n : nat) : string :=
  match n with
  | O => EmptyString
  | S k => " " ++ spaces k
  end.

(** The wrapper shared by SerializeJSONObject and SerializeJSONArray. *)
Definition wrap (opening closing gap stepback indent : string)
           (partial : list string) : string :=
  match partial with
  | [] => opening ++ closing
  | _ :: _ =>
      if String.eqb gap ""
      then opening ++ String.concat "," partial ++ closing
      else opening ++ nl ++ indent
           ++ String.concat ("," ++ nl ++ indent) partial
           ++ nl ++ stepback ++ closing
  end.

(** SerializeJSONProperty; [None] is the undefined result. *)
Fixpoint SerializeJSONProperty (gap indent : string) (v : value)
  : option string :=
  match v with
  | Undefined => None
  | Null => Some "null"
  | Bool b => Some (string_of_bool b)
  | Num n => Some (string_of_Z n)
  | Str s => Some (QuoteJSONString s)
  | Arr elems =>
      let stepback := indent in
      let indent := indent ++ gap in
      let partial :=
        List.map (fun e =>
                    match SerializeJSONProperty gap indent e with
                    | Some str => str
                    | None => "null"
                    end) elems in
      Some (wrap "[" "]" gap stepback indent partial)
  | Obj props =>
      let stepback := indent in
      let indent := indent ++ gap in
      let partial :=
        List.flat_map (fun kv =>
                    match SerializeJSONProperty gap indent (snd kv) with
                    | Some str =>
                        [QuoteJSONString (fst kv) ++ ":"
                         ++ (if String.eqb gap "" then "" else " ") ++ str]
                    | None => []
                    end) props in
      Some (wrap "{" "}" gap stepback indent partial)
  end.

(** [JSON.stringify(v, null, space)] for a numeric [space]. *)
Definition JSON_stringify (v : value) (space : nat) : option string :=
  SerializeJSONProperty (spaces (Nat.min 10 space)) "" v.

(** Occurrence of one text inside another. *)
Definition contains (s t : string) : Prop :=
  exists pre post, t = pre ++ s ++ post.

Fixpoint containsb (s t : string) : bool :=
  String.prefix s t
  || match t with
     | EmptyString => false
     | String _ rest => containsb s rest
     end.

End JS.

Export JS.

(** ** The API code templates *)

Module ApiCode.

(** [window.location], as far as the templates read it. *)
Record Location := { protocol : string; host : string }.

(** Modelled from the spec: the type of the declared ports is not among
    the sources; the spec describes a flow record as an identifier and
    a set of declared input and output ports with declared types. The
    template reads only the [type] of a port. *)
Record Port := { type : string; port_id : string }.

(** Modelled from the spec: the state held by [useFlowStore], of which
    the sources read [nodes], [inputs] and [outputs]. *)
Record FlowStore := {
  nodes : list string;
  inputs : list Port;
  outputs : list Port
}.

(** The ambient program state: the window, the flow store, the
    authentication store and the tweaks store. *)
Record World := {
  location : Location;
  flowStore : FlowStore;
  autoLogin : bool;
  tweaks : value
}.

(** Modelled from the spec: [GetCodeType] is declared in [@/types/tweaks],
    which is not among the sources; the fields are those that
    [getJsApiCode] destructures, typed as its documentation says. The
    endpoint name is optional. *)
Module GetCodeType.
Record t := {
  flowId : string;
  isAuth : bool;
  tweaksBuildedObject : value;
  endpointName : option string;
  activeTweaks : bool
}.
End GetCodeType.

(** The parameter record of [getNewJsApiCode]. *)
Module NewJsParams.
Record t := {
  streaming : bool;
  flowId : string;
  isAuthenticated : bool;
  input_value : string;
  input_type : string;
  output_type : string;
  tweaksObject : value;
  activeTweaks : bool
}.
End NewJsParams.

Definition hasChatInput (fs : FlowStore) : bool :=
  existsb (fun input => String.eqb (type input) "ChatInput") (inputs fs).

Definition hasChatOutput (fs : FlowStore) : bool :=
  existsb (fun output => String.eqb (type output) "ChatOutput") (outputs fs).

(** The literal chosen for the [output_type] and [input_type] fields. *)
Definition chat_or_text (b : bool) : string :=
  if b then dq ++ "chat" ++ dq else dq ++ "text" ++ dq.

Definition getJsApiCode (w : World) (p : GetCodeType.t) : string :=
  let tweaksString :=
    if truthy (GetCodeType.tweaksBuildedObject p)
    then JSON_stringify (GetCodeType.tweaksBuildedObject p) 8
    else Some "{}" in
  let hasChatInput := hasChatInput (flowStore w) in
  let hasChatOutput := hasChatOutput (flowStore w) in
  (if GetCodeType.activeTweaks p then ""
   else "let inputValue = " ++ dq ++ dq ++ "; // Insert input value here" ++ nl ++ nl)
  ++ "fetch(" ++ nl
  ++ "  " ++ dq ++ protocol (location w) ++ "//" ++ host (location w)
  ++ "/api/v1/run/"
  ++ or_else (GetCodeType.endpointName p) (GetCodeType.flowId p)
  ++ "?stream=false" ++ dq ++ "," ++ nl
  ++ "  {" ++ nl
  ++ "    method: " ++ dq ++ "POST" ++ dq ++ "," ++ nl
  ++ "    headers: {" ++ nl
  ++ "      " ++ dq ++ "Authorization" ++ dq ++ ": " ++ dq ++ "Bearer <TOKEN>" ++ dq ++ "," ++ nl
  ++ "      " ++ dq ++ "Content-Type" ++ dq ++ ": " ++ dq ++ "application/json" ++ dq ++ ","
  ++ (if GetCodeType.isAuth p
      then nl ++ tab ++ tab ++ tab ++ dq ++ "x-api-key" ++ dq ++ ": <your api key>"
      else "")
  ++ nl
  ++ "    }," ++ nl
  ++ "    body: JSON.stringify({"
  ++ (if GetCodeType.activeTweaks p then ""
      else nl ++ tab ++ tab ++ tab ++ "input_value: inputValue, ")
  ++ nl
  ++ "      output_type: " ++ chat_or_text hasChatOutput ++ "," ++ nl
  ++ "      input_type: " ++ chat_or_text hasChatInput ++ "," ++ nl
  ++ "      tweaks: " ++ interpolate tweaksString ++ nl
  ++ "    })," ++ nl
  ++ "  }," ++ nl
  ++ ")" ++ nl
  ++ "  .then(res => res.json())" ++ nl
  ++ "  .then(data => console.log(data))" ++ nl
  ++ "  .catch(error => console.error('Error:', error));" ++ nl.

Definition getNewJsApiCode (w : World) (p : NewJsParams.t) : string :=
  let host := host (location w) in
  let protocol := protocol (location w) in
  let apiUrl :=
    protocol ++ "//" ++ host ++ "/api/v1/run/" ++ NewJsParams.flowId p in
  let tweaksString :=
    if truthy (NewJsParams.tweaksObject p) && NewJsParams.activeTweaks p
    then JSON_stringify (NewJsParams.tweaksObject p) 2
    else Some "{}" in
  "const payload = {" ++ nl
  ++ "    " ++ dq ++ "input_value" ++ dq ++ ": " ++ dq ++ NewJsParams.input_value p ++ dq ++ "," ++ nl
  ++ "    " ++ dq ++ "output_type" ++ dq ++ ": " ++ dq ++ NewJsParams.output_type p ++ dq ++ "," ++ nl
  ++ "    " ++ dq ++ "input_type" ++ dq ++ ": " ++ dq ++ NewJsParams.input_type p ++ dq
  ++ (if NewJsParams.activeTweaks p && truthy (NewJsParams.tweaksObject p)
      then "," ++ nl
           ++ "    " ++ dq ++ "tweaks" ++ dq ++ ": " ++ interpolate tweaksString
      else "")
  ++ nl
  ++ "};" ++ nl
  ++ "const options = {" ++ nl
  ++ "    method: 'POST'," ++ nl
  ++ "    headers: {" ++ nl
  ++ "        'Content-Type': 'application/json'"
  ++ (if NewJsParams.isAuthenticated p
      then "," ++ nl ++ "        " ++ dq ++ "x-api-key" ++ dq ++ ": " ++ dq ++ "YOUR-API-KEY" ++ dq
      else "")
  ++ nl
  ++ "    }," ++ nl
  ++ "    body: JSON.stringify(payload)" ++ nl
  ++ "};" ++ nl
  ++ "fetch('" ++ apiUrl ++ "?stream=" ++ string_of_bool (NewJsParams.streaming p) ++ "')" ++ nl
  ++ "    .then(response => response.json())" ++ nl
  ++ "    .then(response => console.log(response))" ++ nl
  ++ "    .catch(err => console.error(err));" ++ nl
  ++ "    ".

End ApiCode.

(** ** The bulk duplicate hook *)

Module DuplicateFlows.

(** Modelled from the spec: the flows of [allFlows] are records with an
    identifier; the hook reads nothing else of them. *)
Record Flow := { id : string; flow_name : string }.

(** The arguments of [useDuplicateFlows] that are data. The arguments
    that are functions ([addFlow], [resetFilter], ...) are observed
    through the calls made on them. *)
Record Args := {
  selectedFlowsComponentsCards : list string;
  allFlows : list Flow;
  folderId : option string;
  myCollectionId : option string
}.

Inductive call : Type :=
| addFlow (newProject : bool) (flow : option Flow)
| resetFilter
| getFoldersApi (refetch : bool)
| getFolderById (folder : option string)
| setSelectedFlowsComponentsCards (selection : list string)
| setSuccessData (title : string).

Inductive outcome : Type := Fulfilled | Rejected.

Inductive promise : Type := Pending | Settled (o : outcome).

(** What can be observed of one invocation, in order of occurrence:
    the calls it makes, the settlement of the promise that the [i]-th
    [addFlow] call returned, and a rejection nobody handles. *)
Inductive event : Type :=
| Call (c : call)
| Settle (i : nat) (o : outcome)
| UnhandledRejection.

Record State := {
  requests : list promise;   (* the promises returned by addFlow *)
  all : promise;             (* Promise.all(...) *)
  chained : promise;         (* the promise returned by .then(...) *)
  trace : list event
}.

Definition is_addFlow (c : call) : bool :=
  match c with
  | addFlow _ _ => true
  | _ => false
  end.

Definition calls (t : list event) : list call :=
  List.flat_map (fun e => match e with Call c => [c] | _ => [] end) t.

Definition is_UnhandledRejection (e : event) : bool :=
  match e with
  | UnhandledRejection => true
  | _ => false
  end.

Definition unhandled_rejections (t : list event) : nat :=
  length (List.filter is_UnhandledRejection t).

Definition opt_eqb (a b : option string) : bool :=
  match a, b with
  | Some x, Some y => String.eqb x y
  | None, None => true
  | _, _ => false
  end.

(** The requests issued by the [map] over the selection. *)
Definition issue (a : Args) : list call :=
  List.map (fun selectedFlow =>
              addFlow true
                (List.find (fun flow => String.eqb (id flow) selectedFlow)
                   (allFlows a)))
    (selectedFlowsComponentsCards a).

(** The body of the callback given to [then]. *)
Definition continuation (a : Args) : list call :=
  ([resetFilter; getFoldersApi true]
   ++ (if negb (truthy_str (folderId a)) || opt_eqb (folderId a) (myCollectionId a)
       then [getFolderById (if truthy_str (folderId a)
                            then folderId a else myCollectionId a)]
       else [])
   ++ [setSelectedFlowsComponentsCards [];
       setSuccessData "Flows duplicated successfully"])%list.

Definition is_fulfilled (r : promise) : bool :=
  match r with
  | Settled Fulfilled => true
  | _ => false
  end.

(** Promise.all fulfils once every input promise is fulfilled; the
    chained callback then runs. *)
Definition resolve_all (a : Args) (s : State) : State :=
  match all s with
  | Pending =>
      if forallb is_fulfilled (requests s)
      then {| requests := requests s;
              all := Settled Fulfilled;
              chained := Settled Fulfilled;
              trace := (trace s ++ List.map Call (continuation a))%list |}
      else s
  | Settled _ => s
  end.

(** Promise.all rejects with the first rejection; the chain has no
    rejection handler, so the promise returned by [then] rejects too
    and the rejection is left to the platform. *)
Definition reject_all (s : State) : State :=
  match all s with
  | Pending =>
      {| requests := requests s;
         all := Settled Rejected;
         chained := Settled Rejected;
         trace := (trace s ++ [UnhandledRejection])%list |}
  | Settled _ => s
  end.

(** The state of an invocation once the call has returned and the
    jobs queued by then have run: with no request at all the
    continuation has run, otherwise nothing has happened but the
    requests. The order of the events is that of the platform; the
    state at the return itself is [on_return]. *)
Definition handleDuplicate (a : Args) : State :=
  resolve_all a
    {| requests := List.map (fun _ => Pending) (issue a);
       all := Pending;
       chained := Pending;
       trace := List.map Call (issue a) |}.

(** The state when the call of [handleDuplicate] returns. The requests
    have been issued. Promise.all of no promise at all is fulfilled
    from the start; the callback given to [then] has not run in any
    case, since a reaction runs as a job of its own, after the code
    that is running. *)
Definition on_return (a : Args) : State :=
  {| requests := List.map (fun _ => Pending) (issue a);
     all := match issue a with
            | [] => Settled Fulfilled
            | _ :: _ => Pending
            end;
     chained := Pending;
     trace := List.map Call (issue a) |}.

(** The job of the reaction registered by [then]: once Promise.all is
    fulfilled the callback runs and the promise returned by [then] is
    fulfilled. *)
Definition then_job (a : Args) (s : State) : State :=
  match all s, chained s with
  | Settled Fulfilled, Pending =>
      {| requests := requests s;
         all := all s;
         chained := Settled Fulfilled;
         trace := (trace s ++ List.map Call (continuation a))%list |}
  | _, _ => s
  end.

(** The [i]-th promise settles, before Promise.all reacts to it. *)
Definition record (i : nat) (o : outcome) (s : State) : State :=
  {| requests := <[i := Settled o]> (requests s);
     all := all s;
     chained := chained s;
     trace := (trace s ++ [Settle i o])%list |}.

(** The [i]-th request settles; a promise settles at most once. *)
Definition settle (a : Args) (i : nat) (o : outcome) (s : State)
  : option State :=
  match requests s !! i with
  | Some Pending =>
      Some (match o with
            | Fulfilled => resolve_all a (record i o s)
            | Rejected => reject_all (record i o s)
            end)
  | _ => None
  end.

(** The states an invocation can be in when no job is pending: a
    settlement is taken together with the reactions that it queues. *)
Inductive reachable (a : Args) : State -> Prop :=
| reach_start : reachable a (handleDuplicate a)
| reach_settle s i o s' :
    reachable a s -> settle a i o s = Some s' -> reachable a s'.

(** Replays a list of settlements; one that cannot happen is skipped. *)
Fixpoint run (a : Args) (evs : list (nat * outcome)) (s : State) : State :=
  match evs with
  | [] => s
  | (i, o) :: rest =>
      match settle a i o s with
      | Some s' => run a rest s'
      | None => run a rest s
      end
  end.

(** What holds of every state of an invocation. *)
Record Inv (a : Args) (s : State) : Prop := {
  inv_length : length (requests s) = length (selectedFlowsComponentsCards a);
  inv_settled : forall i o,
    requests s !! i = Some (Settled o) ->
    exists j, trace s !! j = Some (Settle i o);
  inv_trace_settled : forall j i o,
    trace s !! j = Some (Settle i o) ->
    requests s !! i = Some (Settled o);
  inv_calls :
    calls (trace s)
    = if is_fulfilled (all s) then (issue a ++ continuation a)%list else issue a;
  inv_all :
    match all s with
    | Pending =>
        chained s = Pending
        /\ (forall i, requests s !! i <> Some (Settled Rejected))
        /\ unhandled_rejections (trace s) = 0
        /\ forallb is_fulfilled (requests s) = false
    | Settled Fulfilled =>
        chained s = Settled Fulfilled
        /\ forallb is_fulfilled (requests s) = true
        /\ unhandled_rejections (trace s) = 0
    | Settled Rejected =>
        chained s = Settled Rejected
        /\ unhandled_rejections (trace s) = 1
        /\ exists i, requests s !! i = Some (Settled Rejected)
    end;
  inv_after : forall k c,
    trace s !! k = Some (Call c) -> is_addFlow c = false ->
    forall i, i < length (selectedFlowsComponentsCards a) ->
    exists j, j < k /\ trace s !! j = Some (Settle i Fulfilled)
}.

End DuplicateFlows.

(** ** Double-precision numbers *)

Module Double.

(** A finite double is represented by the rational it denotes.
    [binary64] rounds a rational to the nearest double: 53 bits of
    significand, ties to the even significand, gradual underflow.
    Overflow to infinity is left out, so the model follows the platform
    below 2^1024 in absolute value. *)
Definition pow2 (e : Z) : Q := Qpower 2 e.

(** The nearest integer, halves to the even one. *)
Definition round_half_even (x : Q) : Z :=
  let f := Qfloor x in
  match Qcompare (x - inject_Z f) (1 # 2) with
  | Lt => f
  | Gt => (f + 1)%Z
  | Eq => if Z.even f then f else (f + 1)%Z
  end.

(** The exponent [e] with [2^e <= x < 2^(e+1)], for a positive [x]. *)
Definition ilog2 (x : Q) : Z :=
  let e := (Z.log2 (Qnum x) - Z.log2 (Zpos (Qden x)))%Z in
  if Qle_bool (pow2 e) x then e else (e - 1)%Z.

(** The exponent of the last place of the doubles around a positive [x]. *)
Definition quantum (x : Q) : Z := Z.max (ilog2 x - 52) (-1074).

Definition binary64 (x : Q) : Q :=
  if Qeq_bool x 0 then 0%Q
  else
    let a := Qabs x in
    let u := quantum a in
    let y := (inject_Z (round_half_even (a / pow2 u)) * pow2 u)%Q in
    if Qle_bool 0 x then y else (- y)%Q.

(** The product of two doubles. *)
Definition times (x y : Q) : Q := binary64 (x * y).

(** Math.round: the nearest integer, halves upwards. *)
Definition Math_round (x : Q) : Z := Qfloor (x + (1 # 2)).

End Double.

(** ** The file row of the file manager *)

Module FileRenderer.

(** Modelled from the spec: [FileType] is declared in
    [@/types/file_management], which is not among the sources. A file
    descriptor has an identifier, a display name, a path and an upload
    progress: absent once the upload is done, [-1] after a failed
    upload, a fraction while uploading. *)
Record FileType := {
  id : string;
  name : string;
  path : string;
  progress : option Q
}.

(** Modelled from the spec: an entry of the [FILE_ICONS] table, of which
    the component reads [icon] and [color]. *)
Record IconEntry := { icon : string; color : string }.

(** The props. An optional callback is represented by whether it was
    supplied; invoking it is recorded as a command. *)
Record Props := {
  file : FileType;
  handleFileSelect : bool;
  selectedFiles : option (list string);
  handleRemove : bool;
  handleRename : bool;
  index : Z
}.

(** The two [useState] cells. *)
Record State := { openRename : bool; newName : string }.

(** What an event handler can do. *)
Inductive cmd : Type :=
| stopPropagation
| setOpenRename (b : bool)
| setNewName (s : string)
| call_handleFileSelect (path : string)
| call_handleRemove (path : string)
| call_handleRename (id name : string).

(** The part of an event object that the handlers read. *)
Record Event := { key : string; target_value : string }.

Definition handler : Type := Event -> list cmd.

Inductive evname : Type :=
| onClick | onDoubleClick | onChange | onBlur | onKeyDown
| onCheckedChange | menu_handleRename.

Definition evname_eqb (a b : evname) : bool :=
  match a, b with
  | onClick, onClick | onDoubleClick, onDoubleClick | onChange, onChange
  | onBlur, onBlur | onKeyDown, onKeyDown
  | onCheckedChange, onCheckedChange
  | menu_handleRename, menu_handleRename => true
  | _, _ => false
  end.

(** DOM events bubble; the callbacks of child components do not. *)
Definition bubbles (ev : evname) : bool :=
  match ev with
  | onCheckedChange | menu_handleRename => false
  | _ => true
  end.

(** Attribute values. [a_cn] keeps the arguments given to [cn], with
    [None] for an argument that is [false] or [undefined]. *)
Inductive attr : Type :=
| a_str (s : string)
| a_bool (b : bool)
| a_num (n : Z)
| a_undefined
| a_file (f : FileType)
| a_cn (args : list (option string)).

(** Rendered output; [Nothing] stands for [false] and for [<></>]. *)
Inductive node : Type :=
| Text (s : string)
| Elem (tag : string) (attrs : list (string * attr))
       (handlers : list (evname * handler)) (children : list node)
| Nothing.

(** [s.split(sep)] for a one-character separator. *)
Fixpoint split (sep : ascii) (s : string) : list string :=
  match s with
  | EmptyString => [EmptyString]
  | String c rest =>
      if Ascii.eqb c sep then EmptyString :: split sep rest
      else match split sep rest with
           | seg :: segs => String c seg :: segs
           | [] => [String c EmptyString]
           end
  end.

(** [a.pop()], as far as its result goes. *)
Definition pop (a : list string) : option string := List.last (List.map Some a) None.

Definition dot : ascii := "."%char.

(** The last segment of [file.path] split at its dots, or the empty
    string if there were none: the [type] of the component. *)
Definition type_of (f : FileType) : string :=
  match pop (split dot (path f)) with
  | Some t => t
  | None => ""
  end.

(** The tests made on [file.progress]. *)
Definition progress_falsy (f : FileType) : bool :=
  match progress f with
  | None => true
  | Some q => Qeq_bool q 0
  end.

Definition progress_defined (f : FileType) : bool :=
  match progress f with
  | None => false
  | Some _ => true
  end.

Definition progress_failed (f : FileType) : bool :=
  match progress f with
  | None => false
  | Some q => Qeq_bool q (-1)
  end.

(** [Math.round(file.progress * 100)], shown as text. The progress is
    the double nearest to the rational of the descriptor, the product
    is rounded to a double, and Math.round takes the nearest integer. *)
Definition percent (f : FileType) : string :=
  match progress f with
  | None => "NaN"
  | Some q =>
      string_of_Z (Double.Math_round (Double.times (Double.binary64 q) 100))
  end.

Definition when (b : bool) (cs : list cmd) : list cmd :=
  if b then cs else [].

(** The node reached from [n] by following child indices. *)
Fixpoint node_at (n : node) (target : list nat) : option node :=
  match target with
  | [] => Some n
  | i :: rest =>
      match n with
      | Elem _ _ _ children =>
          match children !! i with
          | Some c => node_at c rest
          | None => None
          end
      | _ => None
      end
  end.

Definition handler_of (n : node) (ev : evname) : list handler :=
  match n with
  | Elem _ _ handlers _ =>
      match List.find (fun h => evname_eqb (fst h) ev) handlers with
      | Some h => [snd h]
      | None => []
      end
  | _ => []
  end.

Definition attr_of (n : node) (a : string) : option attr :=
  match n with
  | Elem _ attrs _ _ =>
      match List.find (fun kv => String.eqb (fst kv) a) attrs with
      | Some kv => Some (snd kv)
      | None => None
      end
  | _ => None
  end.

Definition tag_of (n : node) : option string :=
  match n with
  | Elem tag _ _ _ => Some tag
  | _ => None
  end.

(** The handlers for [ev] from the target up to the root; [None] when
    the target is not in the rendered output. *)
Fixpoint propagation_path (n : node) (target : list nat) (ev : evname)
  : option (list handler) :=
  match target with
  | [] =>
      match n with
      | Nothing => None
      | _ => Some (handler_of n ev)
      end
  | i :: rest =>
      match n with
      | Elem _ _ _ children =>
          match children !! i with
          | Some c =>
              match propagation_path c rest ev with
              | Some hs => Some (hs ++ handler_of n ev)%list
              | None => None
              end
          | None => None
          end
      | _ => None
      end
  end.

Definition is_stopPropagation (c : cmd) : bool :=
  match c with
  | stopPropagation => true
  | _ => false
  end.

(** Handlers run from the target outwards until one of them stops the
    propagation. *)
Fixpoint bubble (hs : list handler) (e : Event) : list cmd :=
  match hs with
  | [] => []
  | h :: rest =>
      let cs := h e in
      if existsb is_stopPropagation cs then cs
      else (cs ++ bubble rest e)%list
  end.

(** The commands run when [ev] is fired at [target]. *)
Definition fire (tree : node) (target : list nat) (ev : evname) (e : Event)
  : option (list cmd) :=
  match propagation_path tree target ev with
  | Some hs =>
      Some (if bubbles ev then bubble hs e
            else match node_at tree target with
                 | Some n => List.flat_map (fun h => h e) (handler_of n ev)
                 | None => []
                 end)
  | None => None
  end.

(** The state setters among the commands, applied in order. *)
Fixpoint exec (cs : list cmd) (st : State) : State :=
  match cs with
  | [] => st
  | setOpenRename b :: rest =>
      exec rest {| openRename := b; newName := newName st |}
  | setNewName s :: rest =>
      exec rest {| openRename := openRename st; newName := s |}
  | _ :: rest => exec rest st
  end.

(** The effect with dependency list [[openRename]]: it runs after a
    render in which [openRename] differs from the previous render. *)
Definition commit (p : Props) (prev next : State) : State :=
  if Bool.eqb (openRename prev) (openRename next) then next
  else {| openRename := openRename next; newName := name (file p) |}.

(** The state after mounting. *)
Definition mount (p : Props) : State :=
  {| openRename := false; newName := name (file p) |}.

Fixpoint text_content (n : node) : string :=
  match n with
  | Text s => s
  | Elem _ _ _ children => String.concat "" (List.map text_content children)
  | Nothing => ""
  end.

(** The names of the icons of a rendered output, in document order. *)
Fixpoint shown_icons (n : node) : list string :=
  match n with
  | Elem tag attrs _ children =>
      ((if String.eqb tag "ForwardedIconComponent"
        then match attr_of n "name" with
             | Some (a_str s) => [s]
             | _ => []
             end
        else [])
       ++ List.flat_map shown_icons children)%list
  | _ => []
  end.

(** The places of the rendered row that the events below are aimed at. *)
Definition row_target : list nat := [].
Definition icon_target : list nat := [0; 1; 0]%nat.
Definition name_target : list nat := [0; 1; 1]%nat.
Definition input_target : list nat := [0; 1; 1; 0]%nat.
Definition failed_target : list nat := [0; 1; 2]%nat.
Definition try_again_target : list nat := [0; 1; 2; 2]%nat.
Definition menu_target : list nat := [1]%nat.

(** The calls made on the callback props, among the commands run. *)
Definition is_callback (c : cmd) : bool :=
  match c with
  | call_handleFileSelect _ | call_handleRemove _ | call_handleRename _ _ => true
  | _ => false
  end.

Definition callbacks (cs : list cmd) : list cmd := List.filter is_callback cs.

(** The same props for another file, and a file with its [progress]
    field removed; used to compare two renders. *)
Definition with_file (p : Props) (f : FileType) : Props :=
  {| file := f;
     handleFileSelect := handleFileSelect p;
     selectedFiles := selectedFiles p;
     handleRemove := handleRemove p;
     handleRename := handleRename p;
     index := index p |}.

Definition without_progress (f : FileType) : FileType :=
  {| id := id f; name := name f; path := path f; progress := None |}.

(** The spec's wording of the extension of a path: what follows the
    last dot, or the whole path when it has no dot. *)
Definition has_dot (s : string) : bool := containsb "." s.

Definition is_extension (ext p : string) : Prop :=
  has_dot ext = false
  /\ (p = ext \/ exists stem, p = stem ++ "." ++ ext).

Section Component.

(** The icon table of [@/utils/styleUtils], keyed by extension. A key
    that an object only inherits has no [icon] and no [color], so it
    behaves as a key without entry. *)
Variable FILE_ICONS : gmap string IconEntry.

Definition icon_name (type : string) : string :=
  match FILE_ICONS !! type with
  | Some entry => icon entry
  | None => "File"
  end.

Definition icon_color (type : string) : option string :=
  match FILE_ICONS !! type with
  | Some entry => Some (color entry)
  | None => None
  end.

Definition FileRendererComponent (p : Props) (st : State) : node :=
  let file := file p in
  let type := type_of file in
  let handleOpenRename : handler :=
    fun _ => when (handleRename p) [setOpenRename true] in
  Elem "div"
    [("key", a_num (index p));
     ("className",
       a_cn [Some "flex items-center justify-between rounded-lg py-2";
             Some (if handleFileSelect p
                   then "cursor-pointer px-3 hover:bg-accent" else "")])]
    [(onClick, fun _ =>
        when (progress_falsy file)
          (when (handleFileSelect p) [call_handleFileSelect (path file)]))]
    [ Elem "div" [("className", a_str "flex items-center gap-4")] []
        [ (if handleFileSelect p
           then
             Elem "div"
               [("className",
                  a_cn [Some "flex";
                        if progress_defined file
                        then Some "pointer-events-none cursor-not-allowed"
                        else None])]
               [(onClick, fun _ => [stopPropagation])]
               [ Elem "Checkbox"
                   [("checked",
                      match selectedFiles p with
                      | Some l => a_bool (existsb (String.eqb (path file)) l)
                      | None => a_undefined
                      end)]
                   [(onCheckedChange, fun _ =>
                       when (handleFileSelect p)
                         [call_handleFileSelect (path file)])]
                   [] ]
           else Nothing);
          Elem "div" [("className", a_str "flex items-center gap-2")] []
            [ (if progress_defined file && negb (progress_failed file)
               then
                 Elem "div"
                   [("className", a_str "flex h-6 items-center justify-center text-xs font-semibold text-muted-foreground")]
                   []
                   [Text (percent file); Text "%"]
               else
                 Elem "ForwardedIconComponent"
                   [("name", a_str (icon_name type));
                    ("className",
                      a_cn [Some "h-6 w-6 shrink-0";
                            if progress_defined file
                            then Some "text-placeholder-foreground"
                            else icon_color type])]
                   [] []);
              (if openRename st
               then
                 Elem "div" [("className", a_str "w-full")] []
                   [ Elem "Input"
                       [("value", a_str (newName st));
                        ("autoFocus", a_bool true);
                        ("className", a_str "h-6 py-1")]
                       [(onChange, fun e => [setNewName (target_value e)]);
                        (onBlur, fun _ =>
                           (setOpenRename false
                            :: when (handleRename p)
                                 [call_handleRename (id file) (newName st)])%list);
                        (onKeyDown, fun e =>
                           when (String.eqb (key e) "Enter")
                             (setOpenRename false
                              :: when (handleRename p)
                                   [call_handleRename (id file) (newName st)])%list);
                        (onClick, fun _ => [stopPropagation])]
                       [] ]
               else
                 Elem "span"
                   [("className",
                      a_cn [Some "cursor-text text-sm font-medium";
                            if progress_defined file && progress_failed file
                            then Some "pointer-events-none text-placeholder-foreground"
                            else None])]
                   [(onDoubleClick, fun _ =>
                       (stopPropagation
                        :: when (progress_falsy file) [setOpenRename true])%list)]
                   [Text (name file)]);
              (if progress_defined file && progress_failed file
               then
                 Elem "span" [("className", a_str "text-[13px] text-primary")] []
                   [ Text "Upload failed,";
                     Text " ";
                     Elem "span"
                       [("className", a_str "cursor-pointer text-accent-pink-foreground underline")]
                       [(onClick, fun _ => [stopPropagation])]
                       [Text "try again?"] ]
               else Nothing) ] ];
      (if handleRemove p
       then
         Elem "Button"
           [("size", a_str "iconMd"); ("variant", a_str "ghost");
            ("className", a_str "hover:bg-accent")]
           [(onClick, fun _ =>
               (stopPropagation
                :: when (handleRemove p) [call_handleRemove (path file)])%list)]
           [ Elem "ForwardedIconComponent"
               [("name", a_str "X");
                ("className", a_str "h-5 w-5 shrink-0 text-muted-foreground")]
               [] [] ]
       else if negb (progress_defined file)
       then
         Elem "FilesContextMenuComponent"
           [("file", a_file file); ("simplified", a_bool true)]
           [(menu_handleRename, handleOpenRename)]
           [ Elem "Button"
               [("size", a_str "iconMd"); ("variant", a_str "ghost");
                ("className", a_str "hover:bg-secondary-foreground/5")]
               [(onClick, fun _ => [stopPropagation])]
               [ Elem "ForwardedIconComponent"
                   [("name", a_str "EllipsisVertical");
                    ("className", a_str "h-5 w-5 shrink-0")]
                   [] [] ] ]
       else Nothing) ].

(** One user interaction: the handlers run against the current
    render, the state updates are applied, and the effect runs. *)
Definition dispatch (p : Props) (st : State)
           (target : list nat) (ev : evname) (e : Event)
  : option (State * list cmd) :=
  match fire (FileRendererComponent p st) target ev e with
  | Some cs => Some (commit p st (exec cs st), cs)
  | None => None
  end.

End Component.

End FileRenderer.

(** ** Runs of the file row *)

Module FileRendererRuns.

Import FileRenderer.

(** Every handler attached anywhere in a rendered output. *)
Fixpoint all_handlers (n : node) : list handler :=
  match n with
  | Elem _ _ handlers children =>
      (List.map snd handlers ++ List.flat_map all_handlers children)%list
  | _ => []
  end.

(** What a command run from state [st] under props [p] may be: a call
    of a callback that was supplied, on the path or the identifier of
    the file of the row, with the buffer as the new name; a change of
    the buffer or a closing of the editor only while the editor is
    open. *)
Definition allowed (p : Props) (st : State) (c : cmd) : Prop :=
  match c with
  | stopPropagation => True
  | setOpenRename true => True
  | setOpenRename false => openRename st = true
  | setNewName _ => openRename st = true
  | call_handleFileSelect x =>
      handleFileSelect p = true /\ x = path (file p)
  | call_handleRemove x =>
      handleRemove p = true /\ x = path (file p)
  | call_handleRename i n =>
      handleRename p = true /\ i = id (file p) /\ n = newName st
  end.

Section Runs.

Variable FILE_ICONS : gmap string IconEntry.

(** The states of a mounted row under fixed props. *)
Inductive reachable (p : Props) : State -> Prop :=
| reach_mount : reachable p (mount p)
| reach_dispatch st target ev e st' cs :
    reachable p st ->
    dispatch FILE_ICONS p st target ev e = Some (st', cs) ->
    reachable p st'.

End Runs.

End FileRendererRuns.

(** ** Rendered output of the other components *)

Module Dom.

(** Attribute values; [a_nodes] is a prop that holds rendered output. *)
Inductive attr (N : Type) : Type :=
| a_str (s : string)
| a_bool (b : bool)
| a_num (n : Z)
| a_undefined
| a_cn (args : list (option string))
| a_nodes (ns : list N).

Arguments a_str {N} s.
Arguments a_bool {N} b.
Arguments a_num {N} n.
Arguments a_undefined {N}.
Arguments a_cn {N} args.
Arguments a_nodes {N} ns.

(** The events of the DOM, which bubble; every other handler is a
    callback prop of a child component and is called directly. *)
Definition dom_events : list string :=
  ["onClick"; "onDoubleClick"; "onChange"; "onBlur"; "onKeyDown"].

Definition bubbles (ev : string) : bool := existsb (String.eqb ev) dom_events.

Section Tree.

(** What a handler is called with, and what it can do. *)
Variable payload : Type.
Variable cmd : Type.

(** Whether a command is [e.stopPropagation()]. *)
Variable stops : cmd -> bool.

Definition handler : Type := payload -> list cmd.

Inductive node : Type :=
| Text (s : string)
| Elem (tag : string) (attrs : list (string * attr node))
       (handlers : list (string * handler)) (children : list node)
| Nothing.

Fixpoint node_at (n : node) (target : list nat) : option node :=
  match target with
  | [] => Some n
  | i :: rest =>
      match n with
      | Elem _ _ _ children =>
          match children !! i with
          | Some c => node_at c rest
          | None => None
          end
      | _ => None
      end
  end.

Definition handler_of (n : node) (ev : string) : list handler :=
  match n with
  | Elem _ _ handlers _ =>
      match List.find (fun h => String.eqb (fst h) ev) handlers with
      | Some h => [snd h]
      | None => []
      end
  | _ => []
  end.

Definition attr_of (n : node) (a : string) : option (attr node) :=
  match n with
  | Elem _ attrs _ _ =>
      match List.find (fun kv => String.eqb (fst kv) a) attrs with
      | Some kv => Some (snd kv)
      | None => None
      end
  | _ => None
  end.

Definition tag_of (n : node) : option string :=
  match n with
  | Elem tag _ _ _ => Some tag
  | _ => None
  end.

Fixpoint text_content (n : node) : string :=
  match n with
  | Text s => s
  | Elem _ _ _ children => String.concat "" (List.map text_content children)
  | Nothing => ""
  end.

(** The handlers for [ev] from the target up to the root; [None] when
    the target is not in the rendered output. *)
Fixpoint propagation_path (n : node) (target : list nat) (ev : string)
  : option (list handler) :=
  match target with
  | [] =>
      match n with
      | Nothing => None
      | _ => Some (handler_of n ev)
      end
  | i :: rest =>
      match n with
      | Elem _ _ _ children =>
          match children !! i with
          | Some c =>
              match propagation_path c rest ev with
              | Some hs => Some (hs ++ handler_of n ev)%list
              | None => None
              end
          | None => None
          end
      | _ => None
      end
  end.

Fixpoint bubble (hs : list handler) (e : payload) : list cmd :=
  match hs with
  | [] => []
  | h :: rest =>
      let cs := h e in
      if existsb stops cs then cs else (cs ++ bubble rest e)%list
  end.

(** The commands run when [ev] is fired at [target] with [e]. *)
Definition fire (tree : node) (target : list nat) (ev : string) (e : payload)
  : option (list cmd) :=
  match propagation_path tree target ev with
  | Some hs =>
      Some (if bubbles ev then bubble hs e
            else match node_at tree target with
                 | Some n => List.flat_map (fun h => h e) (handler_of n ev)
                 | None => []
                 end)
  | None => None
  end.

(** A fragment with children. *)
Definition Fragment (children : list node) : node := Elem "" [] [] children.

(** Every handler attached to a node or below it. *)
Fixpoint all_handlers (n : node) : list handler :=
  match n with
  | Elem _ _ handlers children =>
      (List.map snd handlers ++ List.flat_map all_handlers children)%list
  | _ => []
  end.

End Tree.

Arguments Text {payload cmd} s.
Arguments Elem {payload cmd} tag attrs handlers children.
Arguments Nothing {payload cmd}.
Arguments Fragment {payload cmd} children.
Arguments node_at {payload cmd} n target.
Arguments handler_of {payload cmd} n ev.
Arguments attr_of {payload cmd} n a.
Arguments tag_of {payload cmd} n.
Arguments text_content {payload cmd} n.
Arguments propagation_path {payload cmd} n target ev.
Arguments bubble {payload cmd} stops hs e.
Arguments fire {payload cmd} stops tree target ev e.
Arguments all_handlers {payload cmd} n.

End Dom.

(** ** The list of files of a component *)

Module FilesRenderer.

Import Dom.

(** A file of the list, as the component declares it. *)
Record File := { name : string; type : string; size : string }.

(** The props; an optional callback is represented by whether it was
    supplied. *)
Record Props := {
  files : list File;
  handleFileSelect : bool;
  selectedFiles : option (list string);
  handleDelete : bool
}.

Inductive cmd : Type :=
| stopPropagation
| call_handleFileSelect (name : string)
| call_handleDelete (name : string)
| console_log (message : string).

Definition stops (c : cmd) : bool :=
  match c with
  | stopPropagation => true
  | _ => false
  end.

Definition when (b : bool) (cs : list cmd) : list cmd :=
  if b then cs else [].

(** The names every object inherits from [Object.prototype]. *)
Definition Object_prototype_keys : list string :=
  ["constructor"; "hasOwnProperty"; "isPrototypeOf"; "propertyIsEnumerable";
   "toLocaleString"; "toString"; "valueOf"; "__proto__";
   "__defineGetter__"; "__defineSetter__";
   "__lookupGetter__"; "__lookupSetter__"].

(** The result of [FILE_ICONS[key]]: an entry of the table, an inherited
    value (which has neither [icon] nor [color]), or undefined. *)
Inductive property : Type :=
| Own (entry : FileRenderer.IconEntry)
| Inherited
| Missing.

Section Component.

Variable FILE_ICONS : gmap string FileRenderer.IconEntry.

Definition get (key : string) : property :=
  match FILE_ICONS !! key with
  | Some entry => Own entry
  | None =>
      if existsb (String.eqb key) Object_prototype_keys
      then Inherited else Missing
  end.

(** One element of [files.map(...)]; [None] is the TypeError raised by
    reading [icon] of undefined. *)
Definition row (p : Props) (file : File) : option (node unit cmd) :=
  match get (type file) with
  | Missing => None
  | found =>
      Some
        (Elem "div"
           [("className",
              a_cn [Some "flex items-center justify-between rounded-lg py-2";
                    Some (if handleFileSelect p
                          then "cursor-pointer px-3 hover:bg-accent" else "")])]
           [("onClick", fun _ =>
               when (handleFileSelect p) [call_handleFileSelect (name file)])]
           [ Elem "div" [("className", a_str "flex items-center gap-4")] []
               [ (if handleFileSelect p
                  then
                    Elem "div" [("className", a_str "flex")]
                      [("onClick", fun _ => [stopPropagation])]
                      [ Elem "Checkbox"
                          [("checked",
                             match selectedFiles p with
                             | Some l => a_bool (existsb (String.eqb (name file)) l)
                             | None => a_undefined
                             end)]
                          [("onCheckedChange", fun _ =>
                              when (handleFileSelect p)
                                [call_handleFileSelect (name file)])]
                          [] ]
                  else Nothing);
                 Elem "div" [("className", a_str "flex items-center gap-2")] []
                   [ Elem "ForwardedIconComponent"
                       [("name",
                          match found with
                          | Own entry => a_str (FileRenderer.icon entry)
                          | _ => a_undefined
                          end);
                        ("className",
                          a_cn [Some "h-6 w-6 shrink-0";
                                match found with
                                | Own entry => Some (FileRenderer.color entry)
                                | _ => None
                                end])]
                       [] [];
                     Elem "span" [("className", a_str "text-sm font-medium")] []
                       [Text (name file)];
                     Elem "span" [("className", a_str "text-xs text-muted-foreground")] []
                       [Text (size file)] ] ];
             (if handleDelete p
              then
                Elem "Button"
                  [("size", a_str "iconMd"); ("variant", a_str "ghost");
                   ("className", a_str "hover:bg-destructive/5")]
                  [("onClick", fun _ =>
                      (stopPropagation
                       :: when (handleDelete p) [call_handleDelete (name file)])%list)]
                  [ Elem "ForwardedIconComponent"
                      [("name", a_str "X");
                       ("className", a_str "h-5 w-5 shrink-0 text-destructive")]
                      [] [] ]
              else
                Elem "Button"
                  [("size", a_str "iconMd"); ("variant", a_str "ghost");
                   ("className", a_str "hover:bg-secondary-foreground/5")]
                  [("onClick", fun _ => [stopPropagation; console_log "oiee"])]
                  [ Elem "ForwardedIconComponent"
                      [("name", a_str "EllipsisVertical");
                       ("className", a_str "h-5 w-5 shrink-0")]
                      [] [] ]) ])
  end.

Definition FilesRendererComponent (p : Props) : option (list (node unit cmd)) :=
  mapM (row p) (files p).

(** An event fired inside the [i]-th row. *)
Definition dispatch (p : Props) (i : nat) (target : list nat) (ev : string)
  : option (list cmd) :=
  match FilesRendererComponent p with
  | Some rows =>
      match rows !! i with
      | Some r => fire stops r target ev tt
      | None => None
      end
  | None => None
  end.

End Component.

(** The places of a row that the events are aimed at. *)
Definition row_target : list nat := [].
Definition checkbox_target : list nat := [0; 0; 0]%nat.
Definition name_target : list nat := [0; 1; 1]%nat.
Definition button_target : list nat := [1]%nat.

(** What a command run in the row of [file] may be. *)
Definition allowed (p : Props) (file : File) (c : cmd) : Prop :=
  match c with
  | stopPropagation => True
  | console_log _ => handleDelete p = false
  | call_handleFileSelect x => handleFileSelect p = true /\ x = name file
  | call_handleDelete x => handleDelete p = true /\ x = name file
  end.

End FilesRenderer.

(** ** The API access modal *)

Module ApiModal.

Import Dom ApiCode.

(** The props [open] and [setOpen]; [mySetOpen] is represented by
    whether it was supplied. The [children] prop, rendered output handed
    in by the caller, is an argument of its own below. *)
Record Props := {
  myOpen : option bool;
  mySetOpen : bool
}.

(** The [useState] cells: [openTweaks], and the cell for [open] that is
    used when the component is not controlled from outside. *)
Record State := { openTweaks : bool; localOpen : bool }.

Inductive cmd : Type :=
| setOpenTweaks (b : bool)
| setLocalOpen (b : bool)
| call_mySetOpen (b : bool)
| call_newInitialSetup (nodes : list string).

(** No handler of the modal stops the propagation of an event. *)
Definition stops (c : cmd) : bool := false.

(** [mySetOpen !== undefined && myOpen !== undefined] *)
Definition controlled (p : Props) : bool :=
  mySetOpen p && match myOpen p with Some _ => true | None => false end.

(** The [open] of the pair chosen by the component. *)
Definition open (p : Props) (st : State) : bool :=
  match myOpen p with
  | Some b => if mySetOpen p then b else localOpen st
  | None => localOpen st
  end.

(** The [setOpen] of the pair chosen by the component, called with a
    boolean. *)
Definition setOpen (p : Props) : handler bool cmd :=
  fun b => if controlled p then [call_mySetOpen b] else [setLocalOpen b].

(** [Object.keys(v).length], for an object whose listed properties are
    distinct; [None] is the TypeError raised for null and undefined. *)
Definition Object_keys_length (v : value) : option nat :=
  match v with
  | Undefined | Null => None
  | Bool _ | Num _ => Some 0
  | Str s => Some (String.length s)
  | Arr elems => Some (length elems)
  | Obj props => Some (length props)
  end.

Definition ApiModal (w : World) (children : list (node bool cmd))
           (p : Props) (st : State) : option (list (node bool cmd)) :=
  let autoLogin := autoLogin w in
  let nodes := nodes (flowStore w) in
  let tweaks := tweaks w in
  let open := open p st in
  match (if Nat.ltb 0 (length nodes)
         then
           match Object_keys_length tweaks with
           | Some n =>
               Some
                 (Elem "div"
                    [("className", a_str "border-r-1 absolute right-12 flex items-center text-[13px] font-medium leading-[16px]")]
                    []
                    [ Elem "Button"
                        [("variant", a_str "ghost"); ("size", a_str "icon");
                         ("className", a_str "h-8")]
                        [("onClick", fun _ => [setOpenTweaks true])]
                        [ Elem "IconComponent"
                            [("name", a_str "SlidersHorizontal");
                             ("className", a_str "h-3.5 w-3.5")]
                            [] [];
                          Elem "span" [] []
                            [Text "Temporary overrides (";
                             Text (string_of_Z (Z.of_nat n));
                             Text ") "] ];
                      Elem "Separator"
                        [("orientation", a_str "vertical");
                         ("className", a_str "ml-2 h-8")]
                        [] [] ])
           | None => None
           end
         else Some Nothing)
  with
  | None => None
  | Some overrides =>
      Some
        [ Elem "BaseModal"
            [("open", a_bool open); ("size", a_str "medium");
             ("className", a_str "")]
            [("setOpen", setOpen p)]
            [ Elem "BaseModal.Trigger" [("asChild", a_bool true)] [] children;
              Elem "BaseModal.Header"
                [("description",
                   if autoLogin then a_undefined
                   else
                     a_nodes
                       [ Elem "span" [("className", a_str "pr-2")] []
                           [ Text "API access requires an API key. You can";
                             Text " ";
                             Elem "a"
                               [("href", a_str "/settings/api-keys");
                                ("className", a_str "text-accent-pink-foreground")]
                               []
                               [Text " "; Text "create an API key"];
                             Text " ";
                             Text "in settings." ] ])]
                []
                [ Elem "IconComponent"
                    [("name", a_str "Code2");
                     ("className", a_str "h-6 w-6 text-gray-800 dark:text-white");
                     ("aria-hidden", a_str "true")]
                    [] [];
                  Elem "span" [("className", a_str "pl-2")] [] [Text "API access"];
                  overrides ];
              Elem "BaseModal.Content" [("overflowHidden", a_bool true)] []
                [ if open
                  then
                    Fragment
                      [ Elem "CustomAPIGenerator" [("isOpen", a_bool open)] [] [];
                        Elem "APITabsComponent" [] [] [] ]
                  else Nothing ] ];
          Elem "BaseModal"
            [("open", a_bool (openTweaks st)); ("size", a_str "medium");
             ("className", a_str "p-0")]
            [("setOpen", fun b => [setOpenTweaks b])]
            [ Elem "BaseModal.Content" [("overflowHidden", a_bool true)] []
                [ Elem "div"
                    [("className", a_str "h-full w-full overflow-y-auto overflow-x-hidden rounded-lg bg-muted pt-10 custom-scroll")]
                    []
                    [ Elem "TweaksComponent"
                        [("open", a_bool (openTweaks st))] [] [] ] ] ] ]
  end.

(** The state setters among the commands, applied in order. *)
Fixpoint exec (cs : list cmd) (st : State) : State :=
  match cs with
  | [] => st
  | setOpenTweaks b :: rest =>
      exec rest {| openTweaks := b; localOpen := localOpen st |}
  | setLocalOpen b :: rest =>
      exec rest {| openTweaks := openTweaks st; localOpen := b |}
  | _ :: rest => exec rest st
  end.

(** The body of the effect: [if (open) newInitialSetup(nodes)]. *)
Definition effect (w : World) (p : Props) (st : State) : list cmd :=
  if open p st then [call_newInitialSetup (nodes (flowStore w))] else [].

(** Mounting: the initial state, and the effect of the first render. *)
Definition mount (w : World) (p : Props) : State * list cmd :=
  let st := {| openTweaks := false; localOpen := false |} in
  (st, effect w p st).

(** A render with possibly new props after [before]: the effect runs
    when [open] differs from the previous render. *)
Definition rerender (w : World) (before after : Props * State) : list cmd :=
  if Bool.eqb (open (fst before) (snd before)) (open (fst after) (snd after))
  then []
  else effect w (fst after) (snd after).

(** One interaction: an event fired inside the [i]-th element of the
    rendered fragment, the state updates, and the effect. *)
Definition dispatch (w : World) (children : list (node bool cmd))
           (p : Props) (st : State)
           (i : nat) (target : list nat) (ev : string) (e : bool)
  : option (State * list cmd) :=
  match ApiModal w children p st with
  | Some roots =>
      match roots !! i with
      | Some r =>
          match fire stops r target ev e with
          | Some cs =>
              let st' := exec cs st in
              Some (st', (cs ++ rerender w (p, st) (p, st'))%list)
          | None => None
          end
      | None => None
      end
  | None => None
  end.

(** The places that the events are aimed at. *)
Definition overrides_button : list nat := [1; 2; 0]%nat.
Definition content : list nat := [2; 0]%nat.

(** What a command of an interaction that leads from [st] to [st'] may
    be: the tweaks are set up from the nodes of the flow and only when
    the modal turns from closed to open; the supplied [setOpen] is
    called only when the component is controlled, and the local state
    is written only when it is not. *)
Definition allowed (w : World) (p : Props) (st st' : State) (c : cmd) : Prop :=
  match c with
  | setOpenTweaks _ => True
  | setLocalOpen _ => controlled p = false
  | call_mySetOpen _ => controlled p = true
  | call_newInitialSetup ns =>
      ns = nodes (flowStore w) /\ open p st = false /\ open p st' = true
  end.

End ApiModal.

(** ** The syntax of the code samples *)

Module Sample.

Import ApiCode.

(** The tokens of a sample. A string literal holds its content as it
    stands between the quotes; [TJson] is a text returned by
    JSON.stringify and [TPlaceholder] a text in angle brackets that the
    reader of the sample is to replace. *)
Inductive quote : Type := DQ | SQ.

Inductive punct : Type :=
| LParen | RParen | LBrace | RBrace
| Comma | Colon | Semi | Dot | Assign | FatArrow.

Inductive token : Type :=
| TSpace
| TTab
| TNewline
| TComment (text : string)
| TPunct (p : punct)
| TIdent (x : string)
| TString (q : quote) (s : string)
| TJson (text : string)
| TPlaceholder (text : string).

Definition print_quote (q : quote) : string :=
  match q with
  | DQ => dq
  | SQ => "'"
  end.

Definition print_punct (p : punct) : string :=
  match p with
  | LParen => "(" | RParen => ")" | LBrace => "{" | RBrace => "}"
  | Comma => "," | Colon => ":" | Semi => ";" | Dot => "."
  | Assign => "=" | FatArrow => "=>"
  end.

Definition print_token (t : token) : string :=
  match t with
  | TSpace => " "
  | TTab => tab
  | TNewline => nl
  | TComment text => "//" ++ text
  | TPunct p => print_punct p
  | TIdent x => x
  | TString q s => print_quote q ++ s ++ print_quote q
  | TJson text => text
  | TPlaceholder text => "<" ++ text ++ ">"
  end.

Fixpoint print_tokens (ts : list token) : string :=
  match ts with
  | [] => ""
  | t :: rest => print_token t ++ print_tokens rest
  end.

(** A string literal is closed by its own quote when its content holds
    no quote of that kind, no backslash and no line break; a comment
    ends with its line. *)
Definition line_break (c : ascii) : bool :=
  Ascii.eqb c "010" || Ascii.eqb c "013".

Fixpoint plain (q : quote) (s : string) : bool :=
  match s with
  | EmptyString => true
  | String c rest =>
      negb (String.eqb (String c EmptyString) (print_quote q))
      && negb (Ascii.eqb c "092")
      && negb (line_break c)
      && plain q rest
  end.

Fixpoint one_line (s : string) : bool :=
  match s with
  | EmptyString => true
  | String c rest => negb (line_break c) && one_line rest
  end.

Definition closed_token (t : token) : bool :=
  match t with
  | TString q s => plain q s
  | TComment text => one_line text
  | _ => true
  end.

Definition literals_closed (ts : list token) : bool := forallb closed_token ts.

(** The strings that a template puts between quotes of kind [q] can be
    put there when each of them is plain for [q]. *)
Definition insertable (q : quote) (parts : list string) : bool :=
  forallb (plain q) parts.

(** A value whose numbers are integers that a double holds exactly;
    JSON.stringify prints such numbers digit by digit. *)
Fixpoint safe_integers (v : value) : bool :=
  match v with
  | Num n => (Z.abs n <=? 2 ^ 53 - 1)%Z
  | Arr elems => forallb safe_integers elems
  | Obj props => forallb (fun kv => safe_integers (snd kv)) props
  | _ => true
  end.

(** Layout, which the parser skips. *)
Definition layout (t : token) : bool :=
  match t with
  | TSpace | TTab | TNewline | TComment _ => true
  | _ => false
  end.

Definition significant (ts : list token) : list token :=
  List.filter (fun t => negb (layout t)) ts.

(** Expressions and statements, as far as the samples use them. *)
Inductive expr : Type :=
| EStr (s : string)
| EIdent (x : string)
| EJson (text : string)
| EPlaceholder (text : string)
| EObj (fields : list (string * expr))
| ECall (callee : expr) (args : list expr)
| EMember (object : expr) (name : string)
| EArrow (param : string) (body : expr).

Inductive stmt : Type :=
| SDecl (kind name : string) (init : expr)
| SExpr (e : expr).

Definition key_of (t : token) : option string :=
  match t with
  | TIdent x => Some x
  | TString _ s => Some s
  | _ => None
  end.

(** A recursive-descent parser over the significant tokens. Objects
    and argument lists may end with a comma. *)
Fixpoint parse_expr (fuel : nat) (ts : list token)
  : option (expr * list token) :=
  match fuel with
  | O => None
  | S fuel =>
      match ts with
      | TIdent x :: TPunct FatArrow :: rest =>
          match parse_expr fuel rest with
          | Some (body, rest') => Some (EArrow x body, rest')
          | None => None
          end
      | TIdent x :: rest => parse_postfix fuel (EIdent x) rest
      | TString _ s :: rest => parse_postfix fuel (EStr s) rest
      | TJson text :: rest => Some (EJson text, rest)
      | TPlaceholder text :: rest => Some (EPlaceholder text, rest)
      | TPunct LBrace :: rest =>
          match parse_fields fuel rest with
          | Some (fields, rest') => parse_postfix fuel (EObj fields) rest'
          | None => None
          end
      | _ => None
      end
  end
with parse_postfix (fuel : nat) (e : expr) (ts : list token)
  : option (expr * list token) :=
  match fuel with
  | O => None
  | S fuel =>
      match ts with
      | TPunct Dot :: TIdent x :: rest => parse_postfix fuel (EMember e x) rest
      | TPunct LParen :: rest =>
          match parse_args fuel rest with
          | Some (args, rest') => parse_postfix fuel (ECall e args) rest'
          | None => None
          end
      | _ => Some (e, ts)
      end
  end
with parse_fields (fuel : nat) (ts : list token)
  : option (list (string * expr) * list token) :=
  match fuel with
  | O => None
  | S fuel =>
      match ts with
      | TPunct RBrace :: rest => Some ([], rest)
      | key :: TPunct Colon :: rest =>
          match key_of key, parse_expr fuel rest with
          | Some k, Some (v, TPunct Comma :: rest') =>
              match parse_fields fuel rest' with
              | Some (fields, rest'') => Some ((k, v) :: fields, rest'')
              | None => None
              end
          | Some k, Some (v, TPunct RBrace :: rest') => Some ([(k, v)], rest')
          | _, _ => None
          end
      | _ => None
      end
  end
with parse_args (fuel : nat) (ts : list token)
  : option (list expr * list token) :=
  match fuel with
  | O => None
  | S fuel =>
      match ts with
      | TPunct RParen :: rest => Some ([], rest)
      | _ =>
          match parse_expr fuel ts with
          | Some (a, TPunct Comma :: rest') =>
              match parse_args fuel rest' with
              | Some (args, rest'') => Some (a :: args, rest'')
              | None => None
              end
          | Some (a, TPunct RParen :: rest') => Some ([a], rest')
          | _ => None
          end
      end
  end.

Definition declares (k : string) : bool :=
  String.eqb k "let" || String.eqb k "const".

Fixpoint parse_statements (fuel : nat) (ts : list token) : option (list stmt) :=
  match fuel with
  | O => None
  | S fuel =>
      match ts with
      | [] => Some []
      | TIdent k :: TIdent x :: TPunct Assign :: rest =>
          if declares k
          then
            match parse_expr fuel rest with
            | Some (e, TPunct Semi :: rest') =>
                match parse_statements fuel rest' with
                | Some stmts => Some (SDecl k x e :: stmts)
                | None => None
                end
            | _ => None
            end
          else None
      | _ =>
          match parse_expr fuel ts with
          | Some (e, TPunct Semi :: rest') =>
              match parse_statements fuel rest' with
              | Some stmts => Some (SExpr e :: stmts)
              | None => None
              end
          | _ => None
          end
      end
  end.

(** The program that a list of tokens spells. *)
Definition program (ts : list token) : option (list stmt) :=
  parse_statements (S (length ts)) (significant ts).

(** The arguments of the call of [fetch] that a chain of method calls
    ([fetch(...).then(...).catch(...)]) starts from. *)
Fixpoint fetch_args (e : expr) : option (list expr) :=
  match e with
  | ECall (EIdent f) args => if String.eqb f "fetch" then Some args else None
  | ECall (EMember receiver _) _ => fetch_args receiver
  | _ => None
  end.

Definition field (k : string) (fields : list (string * expr)) : option expr :=
  match List.find (fun kv => String.eqb (fst kv) k) fields with
  | Some kv => Some (snd kv)
  | None => None
  end.

(** The request of [fetch(resource, options)] for a literal resource
    and literal options: the method defaults to GET. *)
Record request := {
  method : string;
  url : string;
  headers : list (string * expr);
  body : option expr
}.

Definition request_of (args : list expr) : option request :=
  match args with
  | [EStr resource] =>
      Some {| method := "GET"; url := resource; headers := []; body := None |}
  | [EStr resource; EObj options] =>
      Some {| method := match field "method" options with
                        | Some (EStr m) => m
                        | _ => "GET"
                        end;
              url := resource;
              headers := match field "headers" options with
                         | Some (EObj hs) => hs
                         | _ => []
                         end;
              body := field "body" options |}
  | _ => None
  end.

(** The request sent by a sample whose last statement is a chain that
    starts from a call of [fetch]. *)
Definition sent (ts : list token) : option request :=
  match program ts with
  | Some stmts =>
      match List.last (List.map Some stmts) None with
      | Some (SExpr e) =>
          match fetch_args e with
          | Some args => request_of args
          | None => None
          end
      | _ => None
      end
  | None => None
  end.

Definition blanks (n : nat) : list token := List.repeat TSpace n.

(** The sample of [getJsApiCode], token by token. *)
Definition js_sample (w : World) (p : GetCodeType.t) : list token :=
  ((if GetCodeType.activeTweaks p then []
    else [TIdent "let"; TSpace; TIdent "inputValue"; TSpace; TPunct Assign;
          TSpace; TString DQ ""; TPunct Semi; TSpace;
          TComment " Insert input value here"; TNewline; TNewline])
   ++ [TIdent "fetch"; TPunct LParen; TNewline]
   ++ blanks 2
   ++ [TString DQ
         (protocol (location w) ++ "//" ++ host (location w)
          ++ "/api/v1/run/"
          ++ or_else (GetCodeType.endpointName p) (GetCodeType.flowId p)
          ++ "?stream=false");
       TPunct Comma; TNewline]
   ++ blanks 2 ++ [TPunct LBrace; TNewline]
   ++ blanks 4
   ++ [TIdent "method"; TPunct Colon; TSpace; TString DQ "POST";
       TPunct Comma; TNewline]
   ++ blanks 4
   ++ [TIdent "headers"; TPunct Colon; TSpace; TPunct LBrace; TNewline]
   ++ blanks 6
   ++ [TString DQ "Authorization"; TPunct Colon; TSpace;
       TString DQ "Bearer <TOKEN>"; TPunct Comma; TNewline]
   ++ blanks 6
   ++ [TString DQ "Content-Type"; TPunct Colon; TSpace;
       TString DQ "application/json"; TPunct Comma]
   ++ (if GetCodeType.isAuth p
       then [TNewline; TTab; TTab; TTab; TString DQ "x-api-key"; TPunct Colon;
             TSpace; TPlaceholder "your api key"]
       else [])
   ++ [TNewline]
   ++ blanks 4 ++ [TPunct RBrace; TPunct Comma; TNewline]
   ++ blanks 4
   ++ [TIdent "body"; TPunct Colon; TSpace; TIdent "JSON"; TPunct Dot;
       TIdent "stringify"; TPunct LParen; TPunct LBrace]
   ++ (if GetCodeType.activeTweaks p then []
       else [TNewline; TTab; TTab; TTab; TIdent "input_value"; TPunct Colon;
             TSpace; TIdent "inputValue"; TPunct Comma; TSpace])
   ++ [TNewline]
   ++ blanks 6
   ++ [TIdent "output_type"; TPunct Colon; TSpace;
       TString DQ (if hasChatOutput (flowStore w) then "chat" else "text");
       TPunct Comma; TNewline]
   ++ blanks 6
   ++ [TIdent "input_type"; TPunct Colon; TSpace;
       TString DQ (if hasChatInput (flowStore w) then "chat" else "text");
       TPunct Comma; TNewline]
   ++ blanks 6
   ++ [TIdent "tweaks"; TPunct Colon; TSpace;
       TJson (if truthy (GetCodeType.tweaksBuildedObject p)
              then interpolate (JSON_stringify (GetCodeType.tweaksBuildedObject p) 8)
              else "{}");
       TNewline]
   ++ blanks 4 ++ [TPunct RBrace; TPunct RParen; TPunct Comma; TNewline]
   ++ blanks 2 ++ [TPunct RBrace; TPunct Comma; TNewline]
   ++ [TPunct RParen; TNewline]
   ++ blanks 2
   ++ [TPunct Dot; TIdent "then"; TPunct LParen; TIdent "res"; TSpace;
       TPunct FatArrow; TSpace; TIdent "res"; TPunct Dot; TIdent "json";
       TPunct LParen; TPunct RParen; TPunct RParen; TNewline]
   ++ blanks 2
   ++ [TPunct Dot; TIdent "then"; TPunct LParen; TIdent "data"; TSpace;
       TPunct FatArrow; TSpace; TIdent "console"; TPunct Dot; TIdent "log";
       TPunct LParen; TIdent "data"; TPunct RParen; TPunct RParen; TNewline]
   ++ blanks 2
   ++ [TPunct Dot; TIdent "catch"; TPunct LParen; TIdent "error"; TSpace;
       TPunct FatArrow; TSpace; TIdent "console"; TPunct Dot; TIdent "error";
       TPunct LParen; TString SQ "Error:"; TPunct Comma; TSpace;
       TIdent "error"; TPunct RParen; TPunct RParen; TPunct Semi; TNewline])%list.

(** The two declarations that the sample of [getNewJsApiCode] starts
    with, token by token. *)
Definition new_declarations (p : NewJsParams.t) : list token :=
  ([TIdent "const"; TSpace; TIdent "payload"; TSpace; TPunct Assign; TSpace;
    TPunct LBrace; TNewline]
   ++ blanks 4
   ++ [TString DQ "input_value"; TPunct Colon; TSpace;
       TString DQ (NewJsParams.input_value p); TPunct Comma; TNewline]
   ++ blanks 4
   ++ [TString DQ "output_type"; TPunct Colon; TSpace;
       TString DQ (NewJsParams.output_type p); TPunct Comma; TNewline]
   ++ blanks 4
   ++ [TString DQ "input_type"; TPunct Colon; TSpace;
       TString DQ (NewJsParams.input_type p)]
   ++ (if NewJsParams.activeTweaks p && truthy (NewJsParams.tweaksObject p)
       then ([TPunct Comma; TNewline] ++ blanks 4
             ++ [TString DQ "tweaks"; TPunct Colon; TSpace;
                 TJson (interpolate
                          (JSON_stringify (NewJsParams.tweaksObject p) 2))])%list
       else [])
   ++ [TNewline; TPunct RBrace; TPunct Semi; TNewline]
   ++ [TIdent "const"; TSpace; TIdent "options"; TSpace; TPunct Assign; TSpace;
       TPunct LBrace; TNewline]
   ++ blanks 4
   ++ [TIdent "method"; TPunct Colon; TSpace; TString SQ "POST";
       TPunct Comma; TNewline]
   ++ blanks 4
   ++ [TIdent "headers"; TPunct Colon; TSpace; TPunct LBrace; TNewline]
   ++ blanks 8
   ++ [TString SQ "Content-Type"; TPunct Colon; TSpace;
       TString SQ "application/json"]
   ++ (if NewJsParams.isAuthenticated p
       then ([TPunct Comma; TNewline] ++ blanks 8
             ++ [TString DQ "x-api-key"; TPunct Colon; TSpace;
                 TString DQ "YOUR-API-KEY"])%list
       else [])
   ++ [TNewline]
   ++ blanks 4 ++ [TPunct RBrace; TPunct Comma; TNewline]
   ++ blanks 4
   ++ [TIdent "body"; TPunct Colon; TSpace; TIdent "JSON"; TPunct Dot;
       TIdent "stringify"; TPunct LParen; TIdent "payload"; TPunct RParen;
       TNewline]
   ++ [TPunct RBrace; TPunct Semi; TNewline])%list.

(** The start of the call that follows the declarations. *)
Definition new_fetch (w : World) (p : NewJsParams.t) : list token :=
  [TIdent "fetch"; TPunct LParen;
   TString SQ
     (protocol (location w) ++ "//" ++ host (location w)
      ++ "/api/v1/run/" ++ NewJsParams.flowId p
      ++ "?stream=" ++ string_of_bool (NewJsParams.streaming p))].

End Sample.

(** ** Sample inputs *)

Module Samples.

Import ApiCode.

Definition here : Location :=
  {| protocol := "http:"; host := "localhost:7860" |}.

Definition plain_store : FlowStore :=
  {| nodes := ["TextInput-1"; "TextOutput-1"];
     inputs := [ {| type := "TextInput"; port_id := "TextInput-1" |} ];
     outputs := [ {| type := "TextOutput"; port_id := "TextOutput-1" |} ] |}.

Definition chat_store : FlowStore :=
  {| nodes := ["ChatInput-1"; "ChatOutput-1"];
     inputs := [ {| type := "ChatInput"; port_id := "ChatInput-1" |} ];
     outputs := [ {| type := "ChatOutput"; port_id := "ChatOutput-1" |} ] |}.

Definition world (fs : FlowStore) : World :=
  {| location := here; flowStore := fs; autoLogin := true; tweaks := Obj [] |}.

Definition some_tweaks : value :=
  Obj [("OpenAIModel-1", Obj [("temperature", Num 1); ("stream", Bool false)])].

Definition js_params : GetCodeType.t :=
  {| GetCodeType.flowId := "flow-42";
     GetCodeType.isAuth := true;
     GetCodeType.tweaksBuildedObject := some_tweaks;
     GetCodeType.endpointName := None;
     GetCodeType.activeTweaks := false |}.

(** Tweaks are supplied but not active. *)
Definition new_js_params : NewJsParams.t :=
  {| NewJsParams.streaming := true;
     NewJsParams.flowId := "flow-42";
     NewJsParams.isAuthenticated := true;
     NewJsParams.input_value := "hello";
     NewJsParams.input_type := "chat";
     NewJsParams.output_type := "chat";
     NewJsParams.tweaksObject := some_tweaks;
     NewJsParams.activeTweaks := false |}.

Import DuplicateFlows.

Definition flow_one : Flow := {| id := "f1"; flow_name := "one" |}.

(** Two selected identifiers, the second of which matches no flow. *)
Definition two_selected : Args :=
  {| selectedFlowsComponentsCards := ["f1"; "gone"];
     allFlows := [flow_one];
     folderId := None;
     myCollectionId := Some "mine" |}.

Definition first_twin : Flow := {| id := "f2"; flow_name := "first" |}.
Definition second_twin : Flow := {| id := "f2"; flow_name := "second" |}.

(** Two flows share the selected identifier. *)
Definition twins_selected : Args :=
  {| selectedFlowsComponentsCards := ["f2"];
     allFlows := [flow_one; first_twin; second_twin];
     folderId := Some "mine";
     myCollectionId := Some "mine" |}.

Import FileRenderer.

Definition icons : gmap string IconEntry :=
  {[ "json" := {| icon := "FileJson"; color := "text-datatype-indigo" |} ]}.

Definition report (progress : option Q) : FileType :=
  {| id := "file-7"; name := "report"; path := "docs/report.v2.xyz";
     progress := progress |}.

Definition row (progress : option Q) : Props :=
  {| file := report progress;
     handleFileSelect := true;
     selectedFiles := Some [];
     handleRemove := false;
     handleRename := true;
     index := 0 |}.

Definition failed : option Q := Some (-1)%Q.
Definition started : option Q := Some 0%Q.
Definition halfway : option Q := Some (1 # 2)%Q.

Definition editing (buffer : string) : State :=
  {| openRename := true; newName := buffer |}.

Definition enter : Event := {| key := "Enter"; target_value := "" |}.

Definition nothing_selected : Args :=
  {| selectedFlowsComponentsCards := [];
     allFlows := [flow_one];
     folderId := Some "elsewhere";
     myCollectionId := Some "mine" |}.

Definition removable (progress : option Q) : Props :=
  {| file := report progress;
     handleFileSelect := true;
     selectedFiles := None;
     handleRemove := true;
     handleRename := false;
     index := 1 |}.

Definition listing : FilesRenderer.Props :=
  {| FilesRenderer.files :=
       [ {| FilesRenderer.name := "a.json"; FilesRenderer.type := "json";
            FilesRenderer.size := "1 kB" |};
         {| FilesRenderer.name := "b.json"; FilesRenderer.type := "json";
            FilesRenderer.size := "2 kB" |} ];
     FilesRenderer.handleFileSelect := true;
     FilesRenderer.selectedFiles := Some ["a.json"];
     FilesRenderer.handleDelete := true |}.

End Samples.

(** ** Texts and their occurrences *)

Lemma prefix_iff (s t : string) :
  String.prefix s t = true <-> exists post, t = s ++ post.
Proof.
  revert s. induction t as [|b t IH]; intros [|a s]; simpl.
  - split; [exists ""; reflexivity | reflexivity].
  - split; [discriminate | intros [post H]; discriminate].
  - split; [exists (String b t); reflexivity | reflexivity].
  - destruct (ascii_dec a b) as [->|Hne].
    + rewrite IH. split; intros [post H]; exists post; simpl in *; congruence.
    + split; [discriminate | intros [post H]; simpl in H; congruence].
Qed.

Lemma contains_here (s post : string) : contains s (s ++ post).
Proof. exists "", post. reflexivity. Qed.

Lemma contains_skip (s t : string) (c : ascii) :
  contains s t -> contains s (String c t).
Proof. intros (pre & post & ->). exists (String c pre), post. reflexivity. Qed.

Lemma append_assoc (a b c : string) : (a ++ b) ++ c = a ++ b ++ c.
Proof. induction a as [|x a IH]; simpl; [reflexivity | now rewrite IH]. Qed.

Lemma contains_app_r (s a t : string) : contains s t -> contains s (a ++ t).
Proof.
  intros (pre & post & ->). exists (a ++ pre), post.
  now rewrite append_assoc.
Qed.

Lemma containsb_spec (s t : string) : containsb s t = true <-> contains s t.
Proof.
  induction t as [|c t IH]; cbn [containsb].
  - rewrite orb_false_r, prefix_iff. split.
    + intros [post ->]. apply contains_here.
    + intros (pre & post & H). destruct pre; [|discriminate].
      exists post. exact H.
  - rewrite orb_true_iff, prefix_iff, IH. split.
    + intros [[post ->] | H]; [apply contains_here | now apply contains_skip].
    + intros (pre & post & H). destruct pre as [|a pre]; simpl in H.
      * left. exists post. exact H.
      * right. exists pre, post. congruence.
Qed.

Lemma not_contains (s t : string) : containsb s t = false -> ~ contains s t.
Proof. intros H C. apply containsb_spec in C. congruence. Qed.

(** Finds a text inside a concatenation of literals and variables. *)
Ltac normal_text :=
  cbv [dq nl tab bslash string_of_bool ApiCode.chat_or_text];
  repeat first [progress cbn [append] | rewrite append_assoc].

Ltac here_text :=
  exists ""; eexists;
  repeat first [progress cbn [append] | rewrite append_assoc];
  reflexivity.

Ltac find_text :=
  lazymatch goal with
  | |- contains (String ?a _) (String ?a _) =>
      first [here_text | apply contains_skip; find_text]
  | |- contains (String _ _) (String _ _) => apply contains_skip; find_text
  | |- contains _ (String _ _) =>
      first [here_text | apply contains_skip; find_text]
  | |- contains _ (_ ++ _) =>
      first [here_text | apply contains_app_r; find_text]
  end.

Section ApiCodeFacts.

Import ApiCode Samples.

Lemma some_type_iff (t : string) (ports : list Port) :
  existsb (fun port => String.eqb (type port) t) ports = true
  <-> Exists (fun port => type port = t) ports.
Proof.
  rewrite List.existsb_exists, List.Exists_exists.
  split; intros (port & Hin & H); exists port; (split; [exact Hin|]);
    now apply String.eqb_eq.
Qed.

Lemma plain_app (q : Sample.quote) (s t : string) :
  Sample.plain q (s ++ t) = Sample.plain q s && Sample.plain q t.
Proof.
  induction s as [|c s IH]; [reflexivity|].
  cbn [append Sample.plain]. rewrite IH. now rewrite !andb_assoc.
Qed.




(** C4, as stated, fails: the same arguments give different texts in
    two states of the flow store. *)
Lemma getJsApiCode_reads_flow_store :
  getJsApiCode (world plain_store) js_params
  <> getJsApiCode (world chat_store) js_params.
Proof.
  intros H. apply (f_equal (containsb "chat")) in H.
  vm_compute in H. discriminate H.
Qed.

(** C4, amended: the text returned by [getJsApiCode] is determined by
    its parameter record together with the protocol and host of the
    window location and with whether the flow store declares a chat
    input and a chat output; no other program state matters. *)
Theorem getJsApiCode_deterministic (w1 w2 : World) (p1 p2 : GetCodeType.t) :
  p1 = p2 ->
  protocol (location w1) = protocol (location w2) ->
  host (location w1) = host (location w2) ->
  hasChatInput (flowStore w1) = hasChatInput (flowStore w2) ->
  hasChatOutput (flowStore w1) = hasChatOutput (flowStore w2) ->
  getJsApiCode w1 p1 = getJsApiCode w2 p2.
Proof.
  intros -> Hprotocol Hhost Hin Hout. unfold getJsApiCode.
  rewrite Hprotocol, Hhost, Hin, Hout. reflexivity.
Qed.

Lemma getJsApiCode_deterministic_witness :
  getJsApiCode (world plain_store) js_params
  = getJsApiCode
      {| location := here;
         flowStore := {| nodes := []; inputs := []; outputs := [] |};
         autoLogin := false;
         tweaks := some_tweaks |}
      js_params.
Proof.
  apply getJsApiCode_deterministic; reflexivity.
Defined.

(** C5: in the text returned by [getJsApiCode] the output_type field is
    chat exactly when some declared output has type ChatOutput, and
    text otherwise; the input_type field is chat exactly when some
    declared input has type ChatInput, and text otherwise; everything
    before, between and after the two fields is the same for every
    flow store. *)
Theorem getJsApiCode_ports
        (loc : Location) (auto : bool) (tw : value) (p : GetCodeType.t) :
  exists pre mid post : string,
  forall fs : FlowStore,
  exists ot it : string,
    getJsApiCode
      {| location := loc; flowStore := fs; autoLogin := auto; tweaks := tw |} p
    = pre ++ "output_type: " ++ dq ++ ot ++ dq
          ++ mid ++ "input_type: " ++ dq ++ it ++ dq ++ post
    /\ (ot = "chat" <-> Exists (fun output => type output = "ChatOutput") (outputs fs))
    /\ (ot = "text" <-> ~ Exists (fun output => type output = "ChatOutput") (outputs fs))
    /\ (it = "chat" <-> Exists (fun input => type input = "ChatInput") (inputs fs))
    /\ (it = "text" <-> ~ Exists (fun input => type input = "ChatInput") (inputs fs)).
Proof.
  exists
    ((if GetCodeType.activeTweaks p then ""
      else "let inputValue = " ++ dq ++ dq ++ "; // Insert input value here" ++ nl ++ nl)
     ++ "fetch(" ++ nl
     ++ "  " ++ dq ++ protocol loc ++ "//" ++ host loc
     ++ "/api/v1/run/"
     ++ or_else (GetCodeType.endpointName p) (GetCodeType.flowId p)
     ++ "?stream=false" ++ dq ++ "," ++ nl
     ++ "  {" ++ nl
     ++ "    method: " ++ dq ++ "POST" ++ dq ++ "," ++ nl
     ++ "    headers: {" ++ nl
     ++ "      " ++ dq ++ "Authorization" ++ dq ++ ": " ++ dq ++ "Bearer <TOKEN>" ++ dq ++ "," ++ nl
     ++ "      " ++ dq ++ "Content-Type" ++ dq ++ ": " ++ dq ++ "application/json" ++ dq ++ ","
     ++ (if GetCodeType.isAuth p
         then nl ++ tab ++ tab ++ tab ++ dq ++ "x-api-key" ++ dq ++ ": <your api key>"
         else "")
     ++ nl
     ++ "    }," ++ nl
     ++ "    body: JSON.stringify({"
     ++ (if GetCodeType.activeTweaks p then ""
         else nl ++ tab ++ tab ++ tab ++ "input_value: inputValue, ")
     ++ nl ++ "      ").
  exists ("," ++ nl ++ "      ").
  exists
    ("," ++ nl
     ++ "      tweaks: "
     ++ interpolate (if truthy (GetCodeType.tweaksBuildedObject p)
                     then JSON_stringify (GetCodeType.tweaksBuildedObject p) 8
                     else Some "{}")
     ++ nl
     ++ "    })," ++ nl
     ++ "  }," ++ nl
     ++ ")" ++ nl
     ++ "  .then(res => res.json())" ++ nl
     ++ "  .then(data => console.log(data))" ++ nl
     ++ "  .catch(error => console.error('Error:', error));" ++ nl).
  intros fs.
  exists (if hasChatOutput fs then "chat" else "text").
  exists (if hasChatInput fs then "chat" else "text").
  split.
  - unfold getJsApiCode; cbn [flowStore location].
    destruct (hasChatOutput fs), (hasChatInput fs);
      cbv [chat_or_text]; rewrite !append_assoc; reflexivity.
  - unfold hasChatOutput, hasChatInput.
    rewrite <- !some_type_iff.
    destruct (existsb _ (outputs fs)), (existsb _ (inputs fs));
      repeat split; intros; congruence.
Qed.

End ApiCodeFacts.

Section DuplicateFlowsFacts.

Import DuplicateFlows.

Variable a : Args.

Lemma issue_length : length (issue a) = length (selectedFlowsComponentsCards a).
Proof. unfold issue. apply List.length_map. Qed.

Lemma issue_only_addFlow : List.filter is_addFlow (issue a) = issue a.
Proof.
  unfold issue. induction (selectedFlowsComponentsCards a) as [|x l IH]; simpl; [reflexivity|].
  now rewrite IH.
Qed.

Lemma continuation_no_addFlow : List.filter is_addFlow (continuation a) = [].
Proof. unfold continuation. destruct (_ || _); reflexivity. Qed.

Lemma continuation_no_addFlow_in (c : call) :
  In c (continuation a) -> is_addFlow c = false.
Proof.
  unfold continuation. destruct (_ || _); simpl; intuition (subst; reflexivity).
Qed.

Lemma issue_addFlow_in (c : call) : In c (issue a) -> is_addFlow c = true.
Proof.
  unfold issue. rewrite List.in_map_iff. intros (x & <- & _). reflexivity.
Qed.

Lemma calls_app (t1 t2 : list event) :
  calls (t1 ++ t2) = (calls t1 ++ calls t2)%list.
Proof. unfold calls. apply List.flat_map_app. Qed.

Lemma calls_Call (cs : list call) : calls (List.map Call cs) = cs.
Proof. induction cs as [|c cs IH]; simpl; [reflexivity | now rewrite IH]. Qed.

Lemma lookup_Call_calls (t : list event) (k : nat) (c : call) :
  t !! k = Some (Call c) -> In c (calls t).
Proof.
  intros H. unfold calls. apply List.in_flat_map. exists (Call c). split.
  - apply list_elem_of_In. eapply list_elem_of_lookup_2. exact H.
  - now left.
Qed.

Lemma lookup_map_Call (cs : list call) (k : nat) (e : event) :
  List.map Call cs !! k = Some e -> exists c, e = Call c /\ In c cs.
Proof.
  revert k. induction cs as [|c cs IH]; intros [|k]; simpl; try discriminate.
  - intros [= <-]. exists c. auto.
  - intros H. destruct (IH _ H) as (c' & -> & Hin). exists c'. auto.
Qed.

Lemma lookup_all_pending (cs : list call) (i : nat) (r : promise) :
  List.map (fun _ => Pending) cs !! i = Some r -> r = Pending.
Proof.
  revert i. induction cs as [|c cs IH]; intros [|i]; simpl; try discriminate.
  - now intros [= <-].
  - apply IH.
Qed.

Lemma all_fulfilled_lookup (rs : list promise) (i : nat) :
  forallb is_fulfilled rs = true -> i < length rs ->
  rs !! i = Some (Settled Fulfilled).
Proof.
  intros Hall Hi. destruct (lookup_lt_is_Some_2 rs i Hi) as [r Hr].
  rewrite Hr. f_equal.
  rewrite List.forallb_forall in Hall.
  assert (Hf : is_fulfilled r = true).
  { apply Hall. apply list_elem_of_In. eapply list_elem_of_lookup_2. exact Hr. }
  destruct r as [|[|]]; simpl in Hf; congruence.
Qed.

Lemma unhandled_app (t1 t2 : list event) :
  unhandled_rejections (t1 ++ t2)
  = unhandled_rejections t1 + unhandled_rejections t2.
Proof.
  unfold unhandled_rejections. now rewrite List.filter_app, List.length_app.
Qed.

Lemma unhandled_Call (cs : list call) :
  unhandled_rejections (List.map Call cs) = 0.
Proof. induction cs as [|c cs IH]; simpl; [reflexivity | exact IH]. Qed.

Lemma inv_resolve_all (s : State) :
  all s = Pending ->
  length (requests s) = length (selectedFlowsComponentsCards a) ->
  (forall i o, requests s !! i = Some (Settled o) ->
               exists j, trace s !! j = Some (Settle i o)) ->
  (forall j i o, trace s !! j = Some (Settle i o) ->
                 requests s !! i = Some (Settled o)) ->
  calls (trace s) = issue a ->
  chained s = Pending ->
  (forall i, requests s !! i <> Some (Settled Rejected)) ->
  unhandled_rejections (trace s) = 0 ->
  Inv a (resolve_all a s).
Proof.
  intros Hall Hlen Hset Htr Hcalls Hch Hrej Hun.
  unfold resolve_all. rewrite Hall.
  destruct (forallb is_fulfilled (requests s)) eqn:Hful.
  - constructor; cbn [requests all chained trace is_fulfilled].
    + exact Hlen.
    + intros i o Hi. destruct (Hset i o Hi) as [j Hj].
      exists j. now apply lookup_app_l_Some.
    + intros j i o Hj. apply lookup_app_Some in Hj as [Hj | [_ Hj]].
      * eauto.
      * apply lookup_map_Call in Hj as (c & [=] & _).
    + now rewrite calls_app, calls_Call, Hcalls.
    + repeat split; [exact Hful|].
      now rewrite unhandled_app, unhandled_Call, Hun.
    + intros k c Hk Hc i Hi. apply lookup_app_Some in Hk as [Hk | [Hge Hk]].
      * apply lookup_Call_calls in Hk. rewrite Hcalls in Hk.
        apply issue_addFlow_in in Hk. congruence.
      * destruct (Hset i Fulfilled) as [j Hj].
        { apply all_fulfilled_lookup; [exact Hful | lia]. }
        exists j. split.
        -- apply lookup_lt_Some in Hj. lia.
        -- now apply lookup_app_l_Some.
  - constructor.
    + exact Hlen.
    + exact Hset.
    + exact Htr.
    + now rewrite Hall.
    + rewrite Hall. auto.
    + intros k c Hk Hc. apply lookup_Call_calls in Hk. rewrite Hcalls in Hk.
      apply issue_addFlow_in in Hk. congruence.
Qed.

Lemma inv_start : Inv a (handleDuplicate a).
Proof.
  unfold handleDuplicate. apply inv_resolve_all; cbn [requests all chained trace].
  - reflexivity.
  - now rewrite List.length_map, issue_length.
  - intros i o Hi. apply lookup_all_pending in Hi. discriminate.
  - intros j i o Hj. apply lookup_map_Call in Hj as (c & [=] & _).
  - apply calls_Call.
  - reflexivity.
  - intros i Hi. apply lookup_all_pending in Hi. discriminate.
  - apply unhandled_Call.
Qed.

Lemma record_settled (s : State) (i : nat) (o : outcome) :
  Inv a s -> requests s !! i = Some Pending ->
  (forall i' o', requests (record i o s) !! i' = Some (Settled o') ->
                 exists j, trace (record i o s) !! j = Some (Settle i' o'))
  /\ (forall j i' o', trace (record i o s) !! j = Some (Settle i' o') ->
                      requests (record i o s) !! i' = Some (Settled o')).
Proof.
  intros HI Hp. assert (Hi : i < length (requests s)) by (eapply lookup_lt_Some; eauto).
  cbn [record requests trace]. split.
  - intros i' o' H. destruct (decide (i = i')) as [<-|Hne].
    + rewrite list_lookup_insert_eq in H by exact Hi. injection H as <-.
      exists (length (trace s)). rewrite lookup_app_r by lia.
      now rewrite Nat.sub_diag.
    + rewrite list_lookup_insert_ne in H by exact Hne.
      destruct (inv_settled _ _ HI _ _ H) as [j Hj]. exists j.
      now apply lookup_app_l_Some.
  - intros j i' o' H. apply lookup_app_Some in H as [H | [Hge H]].
    + pose proof (inv_trace_settled _ _ HI _ _ _ H) as Hr.
      destruct (decide (i = i')) as [<-|Hne]; [congruence|].
      now rewrite list_lookup_insert_ne.
    + destruct (j - length (trace s)) as [|n]; simpl in H; [|discriminate].
      injection H as <- <-. now apply list_lookup_insert_eq.
Qed.

Lemma record_after (s : State) (i : nat) (o : outcome) :
  Inv a s ->
  forall k c, trace (record i o s) !! k = Some (Call c) -> is_addFlow c = false ->
  forall i', i' < length (selectedFlowsComponentsCards a) ->
  exists j, j < k /\ trace (record i o s) !! j = Some (Settle i' Fulfilled).
Proof.
  intros HI k c Hk Hc i' Hi'. cbn [record trace] in *.
  apply lookup_app_Some in Hk as [Hk | [Hge Hk]].
  - destruct (inv_after _ _ HI _ _ Hk Hc _ Hi') as (j & Hlt & Hj).
    exists j. split; [exact Hlt | now apply lookup_app_l_Some].
  - destruct (k - length (trace s)) as [|n]; simpl in Hk; discriminate.
Qed.

Lemma inv_settle (s s' : State) (i : nat) (o : outcome) :
  Inv a s -> settle a i o s = Some s' -> Inv a s'.
Proof.
  intros HI Hstep. unfold settle in Hstep.
  destruct (requests s !! i) as [[|]|] eqn:Hp; try discriminate.
  injection Hstep as <-. fold (record i o s).
  destruct (record_settled s i o HI Hp) as [Hset Htr].
  pose proof (record_after s i o HI) as Hafter.
  assert (Hlen : length (requests (record i o s))
                 = length (selectedFlowsComponentsCards a)).
  { cbn [record requests]. rewrite length_insert. apply (inv_length _ _ HI). }
  assert (Hun : unhandled_rejections (trace (record i o s))
                = unhandled_rejections (trace s)).
  { cbn [record trace]. rewrite unhandled_app.
    change (unhandled_rejections [Settle i o]) with 0. lia. }
  assert (Hcalls : calls (trace (record i o s)) = calls (trace s)).
  { cbn [record trace]. rewrite calls_app.
    change (calls [Settle i o]) with (@nil call). apply List.app_nil_r. }
  pose proof (inv_all _ _ HI) as Hall. pose proof (inv_calls _ _ HI) as Hc.
  destruct (all s) as [|[|]] eqn:Ha.
  - (* Promise.all still pending *)
    destruct Hall as (Hch & Hrej & Hun0 & _). cbn [is_fulfilled] in Hc.
    destruct o.
    + apply inv_resolve_all; try assumption; try congruence.
      intros i' Hi'. cbn [record requests] in Hi'.
      destruct (decide (i = i')) as [<-|Hne].
      * rewrite list_lookup_insert_eq in Hi' by (eapply lookup_lt_Some; eauto).
        discriminate.
      * rewrite list_lookup_insert_ne in Hi' by exact Hne. now apply (Hrej i').
    + unfold reject_all. cbn [record all]. rewrite Ha.
      constructor; cbn [record requests all chained trace is_fulfilled].
      * exact Hlen.
      * intros i' o' H. destruct (Hset i' o' H) as [j Hj]. exists j.
        now apply lookup_app_l_Some.
      * intros j i' o' H. apply lookup_app_Some in H as [H | [Hge H]].
        -- now apply (Htr j).
        -- destruct (j - _) as [|n]; simpl in H; discriminate.
      * rewrite calls_app. simpl. rewrite List.app_nil_r.
        cbn [record trace] in Hcalls. congruence.
      * split; [reflexivity|]. split.
        -- rewrite unhandled_app.
           cbn [record trace] in Hun. rewrite Hun, Hun0. reflexivity.
        -- exists i. apply list_lookup_insert_eq. eapply lookup_lt_Some; eauto.
      * intros k c Hk Hcc i' Hi'.
        apply lookup_app_Some in Hk as [Hk | [Hge Hk]].
        -- destruct (Hafter k c Hk Hcc i' Hi') as (j & Hlt & Hj).
           exists j. split; [exact Hlt | now apply lookup_app_l_Some].
        -- destruct (k - _) as [|n]; simpl in Hk; discriminate.
  - (* Promise.all fulfilled: no request is pending any more *)
    destruct Hall as (_ & Hful & _).
    rewrite (all_fulfilled_lookup _ i Hful) in Hp; [discriminate|].
    eapply lookup_lt_Some; eauto.
  - (* Promise.all rejected: later settlements change nothing else *)
    destruct Hall as (Hch & Hun1 & i0 & Hi0). cbn [is_fulfilled] in Hc.
    assert (Hsame : (match o with
                     | Fulfilled => resolve_all a (record i o s)
                     | Rejected => reject_all (record i o s)
                     end) = record i o s).
    { destruct o; unfold resolve_all, reject_all; cbn [record all]; now rewrite Ha. }
    rewrite Hsame. constructor; try assumption.
    + cbn [record all]. rewrite Ha. cbn [is_fulfilled]. congruence.
    + cbn [record all chained]. rewrite Ha. split; [exact Hch|].
      split; [congruence|]. exists i0. cbn [record requests].
      rewrite list_lookup_insert_ne; [exact Hi0 | congruence].
Qed.

Lemma reachable_inv (s : State) : reachable a s -> Inv a s.
Proof.
  induction 1 as [|s i o s' _ IH Hstep]; [apply inv_start | eapply inv_settle; eauto].
Qed.


Lemma run_reachable (evs : list (nat * outcome)) (s : State) :
  reachable a s -> reachable a (run a evs s).
Proof.
  revert s. induction evs as [|[i o] evs IH]; intros s Hs; simpl; [exact Hs|].
  destruct (settle a i o s) as [s'|] eqn:Hstep; apply IH; [|exact Hs].
  eapply reach_settle; eauto.
Qed.

(** Once every request is fulfilled, the continuation has run. *)
Lemma handleDuplicate_refreshes (s : State) :
  reachable a s ->
  forallb is_fulfilled (requests s) = true ->
  calls (trace s) = (issue a ++ continuation a)%list
  /\ chained s = Settled Fulfilled.
Proof.
  intros Hs Hful. apply reachable_inv in Hs.
  pose proof (inv_all _ _ Hs) as Hall. pose proof (inv_calls _ _ Hs) as Hc.
  destruct (all s) as [|[|]].
  - destruct Hall as (_ & _ & _ & H). congruence.
  - split; [exact Hc | apply Hall].
  - destruct Hall as (_ & _ & i & Hi).
    rewrite (all_fulfilled_lookup _ i Hful) in Hi; [discriminate|].
    eapply lookup_lt_Some; eauto.
Qed.

End DuplicateFlowsFacts.

Section DuplicateFlowsClaims.

Import DuplicateFlows Samples.

(** C2: [handleDuplicate] calls [addFlow] exactly once per selected
    identifier, in order, and whenever one of the other calls
    ([resetFilter], [getFoldersApi], [getFolderById], the clearing of
    the selection, the success notice) is made, every request has
    already settled, fulfilled, at an earlier point of the trace. *)
Theorem handleDuplicate_waits_for_all (a : Args) (s : State) :
  reachable a s ->
  List.filter is_addFlow (calls (trace s))
  = List.map (fun selectedFlow =>
                addFlow true
                  (List.find (fun flow => String.eqb (id flow) selectedFlow)
                     (allFlows a)))
      (selectedFlowsComponentsCards a)
  /\ length (requests s) = length (selectedFlowsComponentsCards a)
  /\ forall k c,
       trace s !! k = Some (Call c) -> is_addFlow c = false ->
       forall i, i < length (selectedFlowsComponentsCards a) ->
       exists j, j < k /\ trace s !! j = Some (Settle i Fulfilled).
Proof.
  intros Hs. apply reachable_inv in Hs. split; [|split].
  - rewrite (inv_calls _ _ Hs). fold (issue a).
    destruct (is_fulfilled (all s)).
    + now rewrite List.filter_app, issue_only_addFlow,
        continuation_no_addFlow, List.app_nil_r.
    + apply issue_only_addFlow.
  - apply (inv_length _ _ Hs).
  - apply (inv_after _ _ Hs).
Qed.

Lemma handleDuplicate_waits_for_all_witness :
  let s := run two_selected [(1, Fulfilled); (0, Fulfilled)]
             (handleDuplicate two_selected) in
  List.filter is_addFlow (calls (trace s))
  = [addFlow true (Some flow_one); addFlow true None]
  /\ length (requests s) = 2
  /\ forall k c,
       trace s !! k = Some (Call c) -> is_addFlow c = false ->
       forall i, i < 2 ->
       exists j, j < k /\ trace s !! j = Some (Settle i Fulfilled).
Proof.
  apply (handleDuplicate_waits_for_all two_selected).
  exact (reach_settle two_selected _ 0 Fulfilled _
           (reach_settle two_selected _ 1 Fulfilled _
              (reach_start two_selected) eq_refl) eq_refl).
Defined.

(** C3: once a request of the invocation is rejected, the only calls
    ever made are the [addFlow] calls issued at the start (no retry,
    no rollback, nothing shown to the user, and none of the refresh and
    selection-clearing steps); Promise.all and the promise returned by
    [then] are rejected, and the rejection is left unhandled. *)
Theorem handleDuplicate_rejection (a : Args) (s : State) (k i : nat) :
  reachable a s ->
  trace s !! k = Some (Settle i Rejected) ->
  calls (trace s)
  = List.map (fun selectedFlow =>
                addFlow true
                  (List.find (fun flow => String.eqb (id flow) selectedFlow)
                     (allFlows a)))
      (selectedFlowsComponentsCards a)
  /\ all s = Settled Rejected
  /\ chained s = Settled Rejected
  /\ unhandled_rejections (trace s) = 1.
Proof.
  intros Hs Hk. apply reachable_inv in Hs.
  pose proof (inv_trace_settled _ _ Hs _ _ _ Hk) as Hi.
  pose proof (inv_all _ _ Hs) as Hall. pose proof (inv_calls _ _ Hs) as Hc.
  destruct (all s) as [|[|]].
  - destruct Hall as (_ & Hrej & _). now destruct (Hrej i).
  - destruct Hall as (_ & Hful & _).
    rewrite (all_fulfilled_lookup _ i Hful) in Hi; [discriminate|].
    eapply lookup_lt_Some; eauto.
  - destruct Hall as (Hch & Hun & _). auto.
Qed.

Lemma handleDuplicate_rejection_witness :
  let s := run two_selected [(1, Rejected); (0, Fulfilled)]
             (handleDuplicate two_selected) in
  calls (trace s) = [addFlow true (Some flow_one); addFlow true None]
  /\ all s = Settled Rejected
  /\ chained s = Settled Rejected
  /\ unhandled_rejections (trace s) = 1.
Proof.
  apply (handleDuplicate_rejection two_selected _ 2 1).
  - exact (reach_settle two_selected _ 0 Fulfilled _
             (reach_settle two_selected _ 1 Rejected _
                (reach_start two_selected) eq_refl) eq_refl).
  - reflexivity.
Defined.

End DuplicateFlowsClaims.

Section FileRendererFacts.

Import FileRenderer.

Lemma has_dot_cons (c : ascii) (s : string) :
  has_dot (String c s) = Ascii.eqb c dot || has_dot s.
Proof.
  unfold has_dot. cbn [containsb String.prefix].
  destruct (ascii_dec "." c) as [<-|Hne].
  - now destruct s.
  - assert (Ascii.eqb c dot = false) as ->; [|reflexivity].
    apply Ascii.eqb_neq. unfold dot. congruence.
Qed.

Lemma split_segments (p : string) :
  exists seg segs, split dot p = seg :: segs.
Proof.
  induction p as [|c p (seg & segs & IH)]; cbn [split]; [eauto|].
  destruct (Ascii.eqb c dot); [eauto|]. rewrite IH. eauto.
Qed.

Lemma split_no_dot (s : string) : has_dot s = false -> split dot s = [s].
Proof.
  induction s as [|c s IH]; [reflexivity|].
  rewrite has_dot_cons. intros [Hc Hs]%orb_false_elim.
  cbn [split]. now rewrite Hc, (IH Hs).
Qed.

Lemma split_app_dot (stem ext : string) :
  split dot (stem ++ "." ++ ext) = (split dot stem ++ split dot ext)%list.
Proof.
  induction stem as [|c stem IH]; [reflexivity|].
  change (String c stem ++ "." ++ ext) with (String c (stem ++ "." ++ ext)).
  cbn [split]. rewrite IH.
  destruct (Ascii.eqb c dot); [reflexivity|].
  now destruct (split_segments stem) as (seg & segs & ->).
Qed.

Lemma pop_last (l : list string) (x : string) : pop (l ++ [x]) = Some x.
Proof. unfold pop. rewrite List.map_app. apply List.last_last. Qed.

(** The spec's extension is what [split] and [pop] compute. *)
Lemma extension_pop (ext p : string) :
  is_extension ext p -> pop (split dot p) = Some ext.
Proof.
  intros [Hnd [->|[stem ->]]].
  - now rewrite split_no_dot.
  - now rewrite split_app_dot, (split_no_dot ext Hnd), pop_last.
Qed.

Lemma extension_exists (p : string) : exists ext, is_extension ext p.
Proof.
  induction p as [|c p (ext & Hnd & Hext)].
  - exists "". split; [reflexivity | now left].
  - destruct (Ascii.eqb c dot) eqn:Hc.
    + apply Ascii.eqb_eq in Hc. subst c. exists ext. split; [exact Hnd|].
      right. destruct Hext as [->|[stem ->]].
      * exists "". reflexivity.
      * exists (String dot stem). reflexivity.
    + destruct Hext as [->|[stem ->]].
      * exists (String c ext). split; [|now left].
        now rewrite has_dot_cons, Hc, Hnd.
      * exists ext. split; [exact Hnd|]. right.
        exists (String c stem). reflexivity.
Qed.

Lemma extension_type_of (f : FileType) (ext : string) :
  is_extension ext (path f) <-> type_of f = ext.
Proof.
  unfold type_of. split.
  - intros H. now rewrite (extension_pop _ _ H).
  - intros <-. destruct (extension_exists (path f)) as [ext H].
    now rewrite (extension_pop _ _ H).
Qed.


Variable FILE_ICONS : gmap string IconEntry.

Lemma commit_same (p : Props) (st : State) : commit p st st = st.
Proof. unfold commit. now rewrite Bool.eqb_reflx. Qed.

Lemma blur_closes (p : Props) (st : State) (e : Event) :
  openRename st = true ->
  dispatch FILE_ICONS p st input_target onBlur e
  = Some ({| openRename := false; newName := name (file p) |},
          setOpenRename false
          :: (if handleRename p
              then [call_handleRename (id (file p)) (newName st)] else [])).
Proof.
  destruct st as [open buffer]. cbn [openRename]. intros ->.
  unfold dispatch, fire, FileRendererComponent. cbn.
  destruct (handleFileSelect p), (handleRename p); reflexivity.
Qed.

(** Opening the editor resets the buffer to the name of the file. *)
Lemma opening_resets_buffer
      (p : Props) (st st' : State) (target : list nat) (ev : evname)
      (e : Event) (cs : list cmd) :
  openRename st = false ->
  dispatch FILE_ICONS p st target ev e = Some (st', cs) ->
  openRename st' = true ->
  newName st' = name (file p).
Proof.
  unfold dispatch. intros Hclosed Hd Hopen.
  destruct (fire _ _ _ _) as [cs'|]; [|discriminate].
  injection Hd as <- <-. unfold commit in *. rewrite Hclosed in *.
  destruct (openRename (exec cs' st)) eqn:Hx; cbn [Bool.eqb] in *.
  - reflexivity.
  - cbn in Hopen. congruence.
Qed.

Lemma failed_tests (f : FileType) (q : Q) :
  progress f = Some q -> q == -1 ->
  progress_defined f = true /\ progress_failed f = true
  /\ progress_falsy f = false.
Proof.
  intros Hp Hq. unfold progress_defined, progress_failed, progress_falsy.
  rewrite Hp. repeat split.
  - now apply Qeq_bool_iff.
  - destruct (Qeq_bool q 0) eqn:H0; [|reflexivity].
    apply Qeq_bool_iff in H0. rewrite H0 in Hq. discriminate Hq.
Qed.

(** C6: with the rename editor open, pressing Enter in its input (whose
    value is the current buffer) closes the editor and calls the rename
    callback, when one was supplied, exactly once, with the id of the
    file and the buffer; no other callback is called. *)
Theorem enter_renames (p : Props) (st : State) (e : Event) :
  openRename st = true ->
  key e = "Enter" ->
  (option_map tag_of (node_at (FileRendererComponent FILE_ICONS p st) input_target)
   = Some (Some "Input")
   /\ option_map (fun n => attr_of n "value")
        (node_at (FileRendererComponent FILE_ICONS p st) input_target)
      = Some (Some (a_str (newName st))))
  /\ exists st' cs,
      dispatch FILE_ICONS p st input_target onKeyDown e = Some (st', cs)
      /\ openRename st' = false
      /\ cs = setOpenRename false
               :: (if handleRename p
                   then [call_handleRename (id (file p)) (newName st)]
                   else [])
      /\ callbacks cs
         = if handleRename p
           then [call_handleRename (id (file p)) (newName st)] else [].
Proof.
  destruct st as [open buffer], e as [k v]. cbn [openRename key newName].
  intros -> ->. split.
  - unfold FileRendererComponent. cbn. destruct (handleFileSelect p); split; reflexivity.
  - unfold dispatch, fire, FileRendererComponent. cbn.
    destruct (handleFileSelect p), (handleRename p);
      (eexists; eexists; split; [reflexivity|]); repeat split.
Qed.

(** C7: after a failed upload the row shows the text
    Upload failed, try again? and a click on try again? does nothing
    but stop the propagation of the event. *)
Theorem failed_upload_try_again
        (p : Props) (st : State) (e : Event) (q : Q) :
  progress (file p) = Some q ->
  q == -1 ->
  option_map text_content (node_at (FileRendererComponent FILE_ICONS p st) failed_target)
  = Some "Upload failed, try again?"
  /\ option_map text_content
       (node_at (FileRendererComponent FILE_ICONS p st) try_again_target)
     = Some "try again?"
  /\ contains "Upload failed, try again?"
       (text_content (FileRendererComponent FILE_ICONS p st))
  /\ dispatch FILE_ICONS p st try_again_target onClick e
     = Some (st, [stopPropagation]).
Proof.
  intros Hp Hq. destruct (failed_tests _ _ Hp Hq) as (Hd & Hf & Hz).
  assert (Hshown :
            option_map text_content
              (node_at (FileRendererComponent FILE_ICONS p st) failed_target)
            = Some "Upload failed, try again?").
  { unfold FileRendererComponent. cbn -[progress_defined progress_failed].
    rewrite Hd, Hf. destruct (handleFileSelect p); reflexivity. }
  repeat split.
  - exact Hshown.
  - unfold FileRendererComponent. cbn -[progress_defined progress_failed].
    rewrite Hd, Hf. destruct (handleFileSelect p); reflexivity.
  - unfold FileRendererComponent. cbn -[progress_defined progress_failed String.concat append].
    rewrite Hd, Hf. cbn -[String.concat append].
    destruct (handleFileSelect p), (openRename st), (handleRemove p);
      cbn; normal_text; find_text.
  - unfold dispatch, fire, FileRendererComponent.
    cbn -[progress_defined progress_failed progress_falsy].
    rewrite Hd, Hf. destruct (handleFileSelect p); cbn; now rewrite commit_same.
Qed.

Lemma zero_tests (f : FileType) (q : Q) :
  progress f = Some q -> q == 0 ->
  progress_defined f = true /\ progress_failed f = false
  /\ progress_falsy f = true.
Proof.
  intros Hp Hq. unfold progress_defined, progress_failed, progress_falsy.
  rewrite Hp. repeat split.
  - destruct (Qeq_bool q (-1)) eqn:H1; [|reflexivity].
    apply Qeq_bool_iff in H1. rewrite H1 in Hq. discriminate Hq.
  - now apply Qeq_bool_iff.
Qed.

(** C8: for a file whose progress is exactly 0, a click on the row
    calls the file-select callback (when one was supplied) with the
    path, and a double click on the name opens the rename editor; both
    interactions have the same outcome as for the same file without a
    progress field. *)
Theorem zero_progress_like_absent
        (p : Props) (st : State) (e : Event) (q : Q) :
  progress (file p) = Some q ->
  q == 0 ->
  let completed := with_file p (without_progress (file p)) in
  dispatch FILE_ICONS p st row_target onClick e
  = Some (st, if handleFileSelect p
              then [call_handleFileSelect (path (file p))] else [])
  /\ dispatch FILE_ICONS p st row_target onClick e
     = dispatch FILE_ICONS completed st row_target onClick e
  /\ dispatch FILE_ICONS p st name_target onDoubleClick e
     = Some (if openRename st then (st, [])
             else ({| openRename := true; newName := name (file p) |},
                   [stopPropagation; setOpenRename true]))
  /\ dispatch FILE_ICONS p st name_target onDoubleClick e
     = dispatch FILE_ICONS completed st name_target onDoubleClick e.
Proof.
  intros Hp Hq completed. destruct (zero_tests _ _ Hp Hq) as (Hd & Hf & Hz).
  assert (Hrow : forall p',
             progress_falsy (file p') = true ->
             dispatch FILE_ICONS p' st row_target onClick e
             = Some (st, if handleFileSelect p'
                         then [call_handleFileSelect (path (file p'))] else [])).
  { intros p' Hz'. unfold dispatch, fire, FileRendererComponent.
    cbn -[progress_defined progress_failed progress_falsy].
    rewrite Hz'. destruct (handleFileSelect p'); cbn; now rewrite commit_same. }
  assert (Hname : forall p',
             progress_falsy (file p') = true ->
             dispatch FILE_ICONS p' st name_target onDoubleClick e
             = Some (if openRename st then (st, [])
                     else ({| openRename := true; newName := name (file p') |},
                           [stopPropagation; setOpenRename true]))).
  { intros p' Hz'. destruct st as [open buffer]. unfold dispatch, fire, FileRendererComponent.
    cbn -[progress_defined progress_failed progress_falsy].
    rewrite Hz'. destruct (handleFileSelect p'), open; reflexivity. }
  repeat split.
  - now apply Hrow.
  - rewrite (Hrow p Hz). symmetry. apply (Hrow completed). reflexivity.
  - now apply Hname.
  - rewrite (Hname p Hz). symmetry. apply (Hname completed). reflexivity.
Qed.


(** C10: when the rename input loses focus the editor closes and the
    rename callback, when one was supplied, is called with the id of
    the file and the current buffer; when the editor has just been
    opened and nothing was typed, the buffer is the name of the file,
    so the callback receives the unchanged name. *)
Theorem blur_renames
        (p : Props) (st : State) (e : Event)
        (st0 st1 : State) (target : list nat) (ev : evname) (e0 : Event)
        (cs : list cmd) :
  openRename st = true ->
  openRename st0 = false ->
  dispatch FILE_ICONS p st0 target ev e0 = Some (st1, cs) ->
  openRename st1 = true ->
  dispatch FILE_ICONS p st input_target onBlur e
  = Some ({| openRename := false; newName := name (file p) |},
          setOpenRename false
          :: (if handleRename p
              then [call_handleRename (id (file p)) (newName st)] else []))
  /\ dispatch FILE_ICONS p st1 input_target onBlur e
     = Some ({| openRename := false; newName := name (file p) |},
             setOpenRename false
             :: (if handleRename p
                 then [call_handleRename (id (file p)) (name (file p))] else [])).
Proof.
  intros Hopen Hclosed Hd Hopen1. split.
  - now apply blur_closes.
  - rewrite (blur_closes p st1 e Hopen1).
    now rewrite (opening_resets_buffer p st0 st1 target ev e0 cs).
Qed.

End FileRendererFacts.

Section FileRendererWitnesses.

Import FileRenderer Samples.

Lemma enter_renames_witness :
  exists st' cs,
    dispatch icons (row None) (editing "summary") input_target onKeyDown enter
    = Some (st', cs)
    /\ openRename st' = false
    /\ callbacks cs = [call_handleRename "file-7" "summary"].
Proof.
  destruct (enter_renames icons (row None) (editing "summary") enter
              eq_refl eq_refl)
    as (_ & st' & cs & Hd & Hclosed & _ & Hcalls).
  exists st', cs. repeat split; assumption.
Defined.

Lemma failed_upload_try_again_witness :
  option_map text_content
    (node_at (FileRendererComponent icons (row failed) (mount (row failed)))
       failed_target)
  = Some "Upload failed, try again?"
  /\ dispatch icons (row failed) (mount (row failed))
       try_again_target onClick enter
     = Some (mount (row failed), [stopPropagation]).
Proof.
  destruct (failed_upload_try_again icons (row failed)
              (mount (row failed)) enter (-1)%Q eq_refl (Qeq_refl _))
    as (Htext & _ & _ & Hclick).
  split; assumption.
Defined.

Lemma zero_progress_like_absent_witness :
  dispatch icons (row started) (mount (row started)) row_target onClick enter
  = Some (mount (row started), [call_handleFileSelect "docs/report.v2.xyz"])
  /\ dispatch icons (row started) (mount (row started))
       name_target onDoubleClick enter
     = Some ({| openRename := true; newName := "report" |},
             [stopPropagation; setOpenRename true]).
Proof.
  destruct (zero_progress_like_absent icons (row started)
              (mount (row started)) enter 0%Q eq_refl (Qeq_refl _))
    as (Hrow & _ & Hname & _).
  split; assumption.
Defined.



Lemma blur_renames_witness :
  dispatch icons (row None) (editing "summary") input_target onBlur enter
  = Some (mount (row None),
          [setOpenRename false; call_handleRename "file-7" "summary"])
  /\ dispatch icons (row None) (editing "report") input_target onBlur enter
     = Some (mount (row None),
             [setOpenRename false; call_handleRename "file-7" "report"]).
Proof.
  exact (blur_renames icons (row None) (editing "summary") enter
           (mount (row None)) (editing "report") name_target onDoubleClick
           enter [stopPropagation; setOpenRename true]
           eq_refl eq_refl eq_refl eq_refl).
Defined.

End FileRendererWitnesses.

(** ** Further properties of the code templates *)

Section ApiCodeEdges.

Import ApiCode Samples.

(** An empty endpoint name counts as no endpoint name, and a non-empty
    one replaces the flow id altogether: the flow id then has no
    influence on the text returned by [getJsApiCode]. *)
Theorem getJsApiCode_endpoint_name
        (w : World) (flowId1 flowId2 name : string)
        (isAuth active : bool) (tw : value) :
  name <> "" ->
  getJsApiCode w
    {| GetCodeType.flowId := flowId1; GetCodeType.isAuth := isAuth;
       GetCodeType.tweaksBuildedObject := tw;
       GetCodeType.endpointName := Some "";
       GetCodeType.activeTweaks := active |}
  = getJsApiCode w
      {| GetCodeType.flowId := flowId1; GetCodeType.isAuth := isAuth;
         GetCodeType.tweaksBuildedObject := tw;
         GetCodeType.endpointName := None;
         GetCodeType.activeTweaks := active |}
  /\ getJsApiCode w
       {| GetCodeType.flowId := flowId1; GetCodeType.isAuth := isAuth;
          GetCodeType.tweaksBuildedObject := tw;
          GetCodeType.endpointName := Some name;
          GetCodeType.activeTweaks := active |}
     = getJsApiCode w
         {| GetCodeType.flowId := flowId2; GetCodeType.isAuth := isAuth;
            GetCodeType.tweaksBuildedObject := tw;
            GetCodeType.endpointName := Some name;
            GetCodeType.activeTweaks := active |}.
Proof.
  intros Hname. split; [reflexivity|].
  unfold getJsApiCode, or_else, truthy_str.
  cbn [GetCodeType.flowId GetCodeType.endpointName interpolate].
  destruct (String.eqb name "") eqn:He; [|reflexivity].
  apply String.eqb_eq in He. contradiction.
Qed.

Lemma getJsApiCode_endpoint_name_witness :
  getJsApiCode (world chat_store)
    {| GetCodeType.flowId := "flow-42"; GetCodeType.isAuth := false;
       GetCodeType.tweaksBuildedObject := Null;
       GetCodeType.endpointName := Some "my-endpoint";
       GetCodeType.activeTweaks := true |}
  = getJsApiCode (world chat_store)
      {| GetCodeType.flowId := "another"; GetCodeType.isAuth := false;
         GetCodeType.tweaksBuildedObject := Null;
         GetCodeType.endpointName := Some "my-endpoint";
         GetCodeType.activeTweaks := true |}.
Proof.
  refine (proj2 (getJsApiCode_endpoint_name (world chat_store)
                   "flow-42" "another" "my-endpoint" false true Null _)).
  discriminate.
Defined.

(** A tweaks argument that is falsy (undefined, null, false, 0 or the
    empty string) gives the same text as the empty object: the body
    then carries [tweaks: {}]. *)
Theorem getJsApiCode_falsy_tweaks
        (w : World) (flowId : string) (isAuth active : bool)
        (name : option string) (tw : value) :
  truthy tw = false ->
  getJsApiCode w
    {| GetCodeType.flowId := flowId; GetCodeType.isAuth := isAuth;
       GetCodeType.tweaksBuildedObject := tw;
       GetCodeType.endpointName := name;
       GetCodeType.activeTweaks := active |}
  = getJsApiCode w
      {| GetCodeType.flowId := flowId; GetCodeType.isAuth := isAuth;
         GetCodeType.tweaksBuildedObject := Obj [];
         GetCodeType.endpointName := name;
         GetCodeType.activeTweaks := active |}.
Proof.
  intros Hfalsy. unfold getJsApiCode.
  cbn [GetCodeType.tweaksBuildedObject]. rewrite Hfalsy. reflexivity.
Qed.

Lemma getJsApiCode_falsy_tweaks_witness :
  getJsApiCode (world plain_store)
    {| GetCodeType.flowId := "flow-42"; GetCodeType.isAuth := true;
       GetCodeType.tweaksBuildedObject := Num 0;
       GetCodeType.endpointName := None;
       GetCodeType.activeTweaks := false |}
  = getJsApiCode (world plain_store)
      {| GetCodeType.flowId := "flow-42"; GetCodeType.isAuth := true;
         GetCodeType.tweaksBuildedObject := Obj [];
         GetCodeType.endpointName := None;
         GetCodeType.activeTweaks := false |}.
Proof.
  apply getJsApiCode_falsy_tweaks. reflexivity.
Defined.

(** With tweaks not active, the text returned by [getNewJsApiCode] does
    not depend on the tweaks object, and of the program state it
    depends on the window location only. *)
Theorem getNewJsApiCode_inactive_tweaks
        (w1 w2 : World) (streaming isAuthenticated : bool)
        (flowId input_value input_type output_type : string)
        (tw1 tw2 : value) :
  location w1 = location w2 ->
  getNewJsApiCode w1
    {| NewJsParams.streaming := streaming; NewJsParams.flowId := flowId;
       NewJsParams.isAuthenticated := isAuthenticated;
       NewJsParams.input_value := input_value;
       NewJsParams.input_type := input_type;
       NewJsParams.output_type := output_type;
       NewJsParams.tweaksObject := tw1;
       NewJsParams.activeTweaks := false |}
  = getNewJsApiCode w2
      {| NewJsParams.streaming := streaming; NewJsParams.flowId := flowId;
         NewJsParams.isAuthenticated := isAuthenticated;
         NewJsParams.input_value := input_value;
         NewJsParams.input_type := input_type;
         NewJsParams.output_type := output_type;
         NewJsParams.tweaksObject := tw2;
         NewJsParams.activeTweaks := false |}.
Proof.
  intros Hloc. unfold getNewJsApiCode. rewrite Hloc. reflexivity.
Qed.

Lemma getNewJsApiCode_inactive_tweaks_witness :
  getNewJsApiCode (world plain_store) new_js_params
  = getNewJsApiCode (world chat_store)
      {| NewJsParams.streaming := true; NewJsParams.flowId := "flow-42";
         NewJsParams.isAuthenticated := true;
         NewJsParams.input_value := "hello";
         NewJsParams.input_type := "chat";
         NewJsParams.output_type := "chat";
         NewJsParams.tweaksObject := Null;
         NewJsParams.activeTweaks := false |}.
Proof.
  apply (getNewJsApiCode_inactive_tweaks (world plain_store) (world chat_store)).
  reflexivity.
Defined.

End ApiCodeEdges.

(** ** Further properties of the bulk duplicate hook *)

Section DuplicateFlowsEdges.

Import DuplicateFlows Samples.

(** Once the jobs queued by the call have run, the invocation is in
    the state [handleDuplicate]. *)
Lemma handleDuplicate_after_jobs (a : Args) :
  then_job a (on_return a) = handleDuplicate a.
Proof.
  unfold then_job, on_return, handleDuplicate, resolve_all.
  cbn [all chained requests trace].
  destruct (issue a); reflexivity.
Qed.

(** With nothing selected, [handleDuplicate] issues no request. When
    the call returns, Promise.all is fulfilled already, but nothing of
    the continuation has been called and the promise returned by
    [then] is pending: the callback runs in the job queued by [then],
    which makes exactly the calls of the continuation and fulfils the
    chain. *)
Theorem handleDuplicate_empty_selection (a : Args) :
  selectedFlowsComponentsCards a = [] ->
  (calls (trace (on_return a)) = []
   /\ requests (on_return a) = []
   /\ all (on_return a) = Settled Fulfilled
   /\ chained (on_return a) = Pending)
  /\ calls (trace (then_job a (on_return a))) = continuation a
  /\ chained (then_job a (on_return a)) = Settled Fulfilled
  /\ then_job a (then_job a (on_return a)) = then_job a (on_return a).
Proof.
  intros Hempty.
  assert (Hissue : issue a = []) by (unfold issue; now rewrite Hempty).
  unfold then_job, on_return. rewrite Hissue.
  cbn [List.map all chained requests trace app].
  repeat split. apply calls_Call.
Qed.

Lemma handleDuplicate_empty_selection_witness :
  calls (trace (on_return nothing_selected)) = []
  /\ chained (on_return nothing_selected) = Pending
  /\ calls (trace (then_job nothing_selected (on_return nothing_selected)))
     = [resetFilter; getFoldersApi true;
        setSelectedFlowsComponentsCards [];
        setSuccessData "Flows duplicated successfully"].
Proof.
  destruct (handleDuplicate_empty_selection nothing_selected eq_refl)
    as ((Hcalls & _ & _ & Hchained) & Hthen & _).
  split; [exact Hcalls|]. split; [exact Hchained | exact Hthen].
Defined.



(** Whenever the continuation refreshes a folder, the folder asked for
    is the one named by [myCollectionId], whatever [folderId] is; and
    it refreshes none exactly when [folderId] is a non-empty identifier
    other than [myCollectionId]. *)
Theorem continuation_folder (a : Args) :
  (forall folder, In (getFolderById folder) (continuation a) ->
                  folder = myCollectionId a)
  /\ ((exists folder, In (getFolderById folder) (continuation a))
      <-> ~ (truthy_str (folderId a) = true /\ folderId a <> myCollectionId a)).
Proof.
  assert (Heq : forall x y, opt_eqb x y = true <-> x = y).
  { intros [x|] [y|]; cbn; try (split; [discriminate | congruence]);
      [|tauto]. rewrite String.eqb_eq. split; congruence. }
  unfold continuation.
  destruct (truthy_str (folderId a)) eqn:Ht; cbn [negb orb].
  - destruct (opt_eqb (folderId a) (myCollectionId a)) eqn:He.
    + apply Heq in He. split.
      * intros folder [H|[H|[H|[H|[H|[]]]]]]; try discriminate. congruence.
      * split; [intros _ [_ Hne]; contradiction|].
        intros _. exists (folderId a). cbn. auto.
    + split.
      * intros folder [H|[H|[H|[H|[]]]]]; discriminate.
      * split.
        -- intros [folder [H|[H|[H|[H|[]]]]]]; discriminate.
        -- intros Hn. exfalso. apply Hn. split; [reflexivity|].
           intros Hx. apply Heq in Hx. congruence.
  - split.
    + intros folder [H|[H|[H|[H|[H|[]]]]]]; try discriminate. congruence.
    + split; [intros _ [Hx _]; discriminate|].
      intros _. exists (myCollectionId a). cbn. auto.
Qed.

Lemma find_first {A : Type} (f : A -> bool) (l : list A) (x : A) :
  List.find f l = Some x ->
  exists before after,
    l = (before ++ x :: after)%list
    /\ f x = true
    /\ forall y, In y before -> f y = false.
Proof.
  induction l as [|y l IH]; cbn [List.find]; [discriminate|].
  destruct (f y) eqn:Hy.
  - intros [= ->]. exists [], l. repeat split; [exact Hy|]. intros ? [].
  - intros Hfind. destruct (IH Hfind) as (before & after & -> & Hx & Hb).
    exists (y :: before), after. repeat split; [exact Hx|].
    intros z [<-|Hz]; [exact Hy | now apply Hb].
Qed.

(** Each request is made for the flow found for the selected identifier
    at the same position: the first flow of [allFlows] with that
    identifier, whatever follows it, or undefined when there is none;
    the request is made all the same. *)
Theorem issue_finds_flow (a : Args) (i : nat) (selectedFlow : string) :
  selectedFlowsComponentsCards a !! i = Some selectedFlow ->
  exists flow,
    issue a !! i = Some (addFlow true flow)
    /\ match flow with
       | Some f =>
           exists before after,
             allFlows a = (before ++ f :: after)%list
             /\ id f = selectedFlow
             /\ forall g, In g before -> id g <> selectedFlow
       | None => forall f, In f (allFlows a) -> id f <> selectedFlow
       end.
Proof.
  intros Hi. unfold issue.
  exists (List.find (fun flow => String.eqb (id flow) selectedFlow) (allFlows a)).
  split.
  - revert i Hi. induction (selectedFlowsComponentsCards a) as [|x l IH];
      intros [|i]; cbn; try discriminate.
    + now intros [= ->].
    + apply IH.
  - destruct (List.find _ (allFlows a)) as [f|] eqn:Hf.
    + apply find_first in Hf as (before & after & Hl & He & Hb).
      exists before, after. split; [exact Hl|]. split.
      * now apply String.eqb_eq.
      * intros g Hg. apply String.eqb_neq. now apply Hb.
    + intros f Hin He. pose proof (List.find_none _ _ Hf f Hin) as Hn.
      cbn in Hn. apply String.eqb_neq in Hn. contradiction.
Qed.

Lemma issue_finds_flow_witness :
  issue twins_selected !! 0 = Some (addFlow true (Some first_twin))
  /\ (exists flow,
        issue twins_selected !! 0 = Some (addFlow true flow)
        /\ match flow with
           | Some f =>
               exists before after,
                 allFlows twins_selected = (before ++ f :: after)%list
                 /\ id f = "f2"
                 /\ forall g, In g before -> id g <> "f2"
           | None => forall f, In f (allFlows twins_selected) -> id f <> "f2"
           end)
  /\ (exists flow,
        issue two_selected !! 1 = Some (addFlow true flow)
        /\ match flow with
           | Some f =>
               exists before after,
                 allFlows two_selected = (before ++ f :: after)%list
                 /\ id f = "gone"
                 /\ forall g, In g before -> id g <> "gone"
           | None => forall f, In f (allFlows two_selected) -> id f <> "gone"
           end).
Proof.
  split; [reflexivity|]. split.
  - exact (issue_finds_flow twins_selected 0 "f2" eq_refl).
  - exact (issue_finds_flow two_selected 1 "gone" eq_refl).
Defined.

End DuplicateFlowsEdges.

(** ** Rounding to doubles *)

Section DoubleFacts.

Import Double.

Local Open Scope Q_scope.

Lemma round_half_even_le (x : Q) (N : Z) :
  x <= inject_Z N -> (round_half_even x <= N)%Z.
Proof.
  intros Hx. unfold round_half_even.
  assert (Hf : (Qfloor x <= N)%Z).
  { rewrite <- (Qfloor_Z N). now apply Qfloor_resp_le. }
  destruct (Z.eq_dec (Qfloor x) N) as [He|Hne].
  - assert (Hlt : x - inject_Z (Qfloor x) < 1 # 2).
    { rewrite He. apply Qle_lt_trans with 0; [|reflexivity].
      apply (Qplus_le_l _ _ (inject_Z N)). ring_simplify. exact Hx. }
    destruct (Qcompare_spec (x - inject_Z (Qfloor x)) (1 # 2)) as [E|L|G].
    + rewrite E in Hlt. now apply Qlt_irrefl in Hlt.
    + lia.
    + exfalso. apply (Qlt_irrefl (1 # 2)). now apply Qlt_trans with (2 := Hlt).
  - destruct (Qcompare _ _); [destruct (Z.even _)| |]; lia.
Qed.

Lemma round_half_even_nonneg (x : Q) :
  0 <= x -> (0 <= round_half_even x)%Z.
Proof.
  intros Hx. unfold round_half_even.
  assert (Hf : (0 <= Qfloor x)%Z).
  { change 0%Z with (Qfloor 0). now apply Qfloor_resp_le. }
  destruct (Qcompare _ _); [destruct (Z.even _)| |]; lia.
Qed.

Lemma Qabs_nonneg_eq (x : Q) : 0 <= x -> Qabs x = x.
Proof.
  destruct x as [n d]. unfold Qle, Qabs. cbn. intros H.
  f_equal. apply Z.abs_eq. lia.
Qed.

Lemma ilog2_le (x : Q) (k : Z) :
  (0 <= k)%Z -> 0 < x -> x <= inject_Z (2 ^ k) -> (ilog2 x <= k)%Z.
Proof.
  intros Hk Hpos Hle. destruct x as [n d].
  unfold Qlt in Hpos. unfold Qle in Hle. cbn in Hpos, Hle.
  assert (He : (Z.log2 n - Z.log2 (Z.pos d) <= k)%Z).
  { assert (H : (Z.log2 n <= Z.log2 (Z.pos d * 2 ^ k))%Z)
      by (apply Z.log2_le_mono; lia).
    rewrite Z.log2_mul_pow2 in H by lia. lia. }
  unfold ilog2. cbn [Qnum Qden].
  destruct (Qle_bool _ _); lia.
Qed.

Lemma pow2_pos (e : Z) : 0 < pow2 e.
Proof. apply Qpower_0_lt. reflexivity. Qed.

Lemma pow2_neg_integer (u : Z) :
  (u <= 0)%Z -> / pow2 u == inject_Z (2 ^ (- u)).
Proof.
  intros Hu. unfold pow2. rewrite <- Qpower_opp.
  rewrite Zpower_Qpower by lia. reflexivity.
Qed.

(** Rounding keeps the sign of a number that is not negative. *)
Lemma binary64_nonneg (x : Q) : 0 <= x -> 0 <= binary64 x.
Proof.
  intros Hx. unfold binary64.
  destruct (Qeq_bool x 0); [apply Qle_refl|].
  assert (Hb : Qle_bool 0 x = true) by now apply Qle_bool_iff.
  rewrite Hb, (Qabs_nonneg_eq x Hx).
  apply Qmult_le_0_compat; [|apply Qlt_le_weak, pow2_pos].
  change 0 with (inject_Z 0). rewrite <- Zle_Qle.
  apply round_half_even_nonneg.
  apply Qle_shift_div_l; [apply pow2_pos|]. now rewrite Qmult_0_l.
Qed.

(** Rounding does not cross an integer that a double holds: below
    2^52 every integer is a multiple of the last place. *)
Lemma binary64_le (x : Q) (B : Z) :
  0 <= x -> x <= inject_Z B -> (B <= 2 ^ 52)%Z -> binary64 x <= inject_Z B.
Proof.
  intros Hx HB Hsmall. unfold binary64.
  destruct (Qeq_bool x 0) eqn:Hz.
  { apply Qle_trans with x; assumption. }
  assert (Hpos : 0 < x).
  { apply Qle_lteq in Hx as [Hlt|Heq]; [exact Hlt|].
    symmetry in Heq. apply Qeq_bool_iff in Heq. congruence. }
  assert (Hb : Qle_bool 0 x = true) by now apply Qle_bool_iff.
  rewrite Hb, (Qabs_nonneg_eq x Hx).
  assert (Hu : (quantum x <= 0)%Z).
  { unfold quantum.
    assert (ilog2 x <= 52)%Z; [|lia].
    apply ilog2_le; [lia|exact Hpos|].
    apply Qle_trans with (inject_Z B); [exact HB|]. now rewrite <- Zle_Qle. }
  set (u := quantum x) in *.
  assert (Hr : (round_half_even (x / pow2 u) <= B * 2 ^ (- u))%Z).
  { apply round_half_even_le. unfold Qdiv.
    rewrite inject_Z_mult, <- pow2_neg_integer by exact Hu.
    apply Qmult_le_compat_r; [exact HB|].
    apply Qlt_le_weak, Qinv_lt_0_compat, pow2_pos. }
  apply Qle_trans with (inject_Z (B * 2 ^ (- u)) * pow2 u).
  - apply Qmult_le_compat_r; [|apply Qlt_le_weak, pow2_pos].
    now rewrite <- Zle_Qle.
  - rewrite inject_Z_mult, <- pow2_neg_integer by exact Hu.
    rewrite <- Qmult_assoc, (Qmult_comm (/ pow2 u)), Qmult_inv_r.
    + rewrite Qmult_1_r. apply Qle_refl.
    + intros H0. pose proof (pow2_pos u) as Hp. rewrite H0 in Hp.
      discriminate Hp.
Qed.

Lemma Math_round_percent (q : Q) :
  0 <= q -> q <= 1 ->
  (0 <= Math_round (times (binary64 q) 100) <= 100)%Z.
Proof.
  intros H0 H1.
  assert (Hb0 : 0 <= binary64 q) by now apply binary64_nonneg.
  assert (Hb1 : binary64 q <= 1).
  { apply (binary64_le q 1); [exact H0|exact H1|]. discriminate. }
  assert (Ht0 : 0 <= times (binary64 q) 100).
  { apply binary64_nonneg. apply Qmult_le_0_compat; [exact Hb0|discriminate]. }
  assert (Ht1 : times (binary64 q) 100 <= 100).
  { apply (binary64_le _ 100).
    - apply Qmult_le_0_compat; [exact Hb0|discriminate].
    - change (inject_Z 100) with (1 * 100).
      apply Qmult_le_compat_r; [exact Hb1|discriminate].
    - discriminate. }
  unfold Math_round. split.
  - change 0%Z with (Qfloor 0). apply Qfloor_resp_le.
    apply Qle_trans with (0 + (1 # 2)); [discriminate|].
    now apply Qplus_le_l.
  - change 100%Z with (Qfloor (100 + (1 # 2))). apply Qfloor_resp_le.
    now apply Qplus_le_l.
Qed.

(** The product is rounded before Math.round sees it: 0.285 * 100 is
    the double just below 28.5, and 0.015 * 100 is the double 1.5. *)
Lemma Math_round_of_products :
  Math_round (times (binary64 (285 # 1000)) 100) = 28%Z
  /\ Math_round (times (binary64 (15 # 1000)) 100) = 2%Z
  /\ Math_round (times (binary64 (1 # 2)) 100) = 50%Z.
Proof. repeat split; vm_compute; reflexivity. Qed.

End DoubleFacts.

(** ** Further properties of the file row *)

Section FileRendererRunsFacts.

Import FileRenderer FileRendererRuns Samples.

Variable FILE_ICONS : gmap string IconEntry.

Lemma handler_of_all (n : node) (ev : evname) (h : handler) :
  In h (handler_of n ev) -> In h (all_handlers n).
Proof.
  destruct n as [s|tag attrs handlers children|]; cbn; try tauto.
  destruct (List.find _ handlers) as [[ev' h']|] eqn:Hf; cbn; [|tauto].
  intros [<-|[]]. apply List.find_some in Hf as [Hin _].
  apply List.in_or_app. left.
  apply (List.in_map snd) in Hin. exact Hin.
Qed.

Lemma child_all (n c : node) (i : nat) (h : handler)
      (tag : string) (attrs : list (string * attr))
      (handlers : list (evname * handler)) (children : list node) :
  n = Elem tag attrs handlers children ->
  children !! i = Some c ->
  In h (all_handlers c) -> In h (all_handlers n).
Proof.
  intros -> Hc Hh. cbn. apply List.in_or_app. right.
  apply List.in_flat_map. exists c. split; [|exact Hh].
  apply list_elem_of_In. eapply list_elem_of_lookup_2. exact Hc.
Qed.

Lemma propagation_all (target : list nat) (n : node) (ev : evname)
      (hs : list handler) (h : handler) :
  propagation_path n target ev = Some hs -> In h hs -> In h (all_handlers n).
Proof.
  revert n hs. induction target as [|i rest IH]; intros n hs;
    cbn [propagation_path].
  - destruct n; intros [= <-] Hin; try discriminate;
      match goal with
      | |- In _ (all_handlers ?n) => exact (handler_of_all n ev h Hin)
      end.
  - destruct n as [s|tag attrs handlers children|]; try discriminate.
    destruct (children !! i) as [c|] eqn:Hc; [|discriminate].
    destruct (propagation_path c rest ev) as [hs'|] eqn:Hp; [|discriminate].
    intros [= <-] Hin. apply List.in_app_or in Hin as [Hin|Hin].
    + eapply child_all; eauto.
    + exact (handler_of_all (Elem tag attrs handlers children) ev h Hin).
Qed.

Lemma node_at_all (target : list nat) (n m : node) (h : handler) :
  node_at n target = Some m -> In h (all_handlers m) -> In h (all_handlers n).
Proof.
  revert n. induction target as [|i rest IH]; intros n; cbn [node_at].
  - now intros [= ->].
  - destruct n as [s|tag attrs handlers children|]; try discriminate.
    destruct (children !! i) as [c|] eqn:Hc; [|discriminate].
    intros Hm Hh. eapply child_all; eauto.
Qed.

Lemma bubble_Forall (P : cmd -> Prop) (hs : list handler) (e : Event) :
  (forall h, In h hs -> Forall P (h e)) -> Forall P (bubble hs e).
Proof.
  induction hs as [|h hs IH]; intros H; cbn; [constructor|].
  destruct (existsb is_stopPropagation (h e)).
  - apply H. now left.
  - apply Forall_app. split; [apply H; now left|].
    apply IH. intros h' Hin. apply H. now right.
Qed.

Lemma fire_Forall (P : cmd -> Prop) (tree : node) (target : list nat)
      (ev : evname) (e : Event) (cs : list cmd) :
  (forall h, In h (all_handlers tree) -> Forall P (h e)) ->
  fire tree target ev e = Some cs -> Forall P cs.
Proof.
  intros H. unfold fire.
  destruct (propagation_path tree target ev) as [hs|] eqn:Hp; [|discriminate].
  intros [= <-]. destruct (bubbles ev).
  - apply bubble_Forall. intros h Hin. apply H. eapply propagation_all; eauto.
  - destruct (node_at tree target) as [n|] eqn:Hn; [|constructor].
    apply Forall_forall. intros c Hc.
    apply list_elem_of_In, List.in_flat_map in Hc as (h & Hh & Hc).
    assert (Hall : Forall P (h e)).
    { apply H. eapply node_at_all; eauto. exact (handler_of_all n ev h Hh). }
    rewrite Forall_forall in Hall. apply Hall. now apply list_elem_of_In.
Qed.

Lemma rendered_handlers_allowed (p : Props) (st : State) (e : Event) :
  Forall (fun h : handler => Forall (allowed p st) (h e))
    (all_handlers (FileRendererComponent FILE_ICONS p st)).
Proof.
  destruct p as [f hfs sel hrm hrn idx], st as [open buffer].
  unfold FileRendererComponent.
  cbn -[progress_defined progress_failed progress_falsy].
  generalize (progress_defined f) (progress_failed f) (progress_falsy f).
  intros defined failed falsy.
  destruct hfs, hrm, hrn, open, defined, failed, falsy; cbn;
    repeat (apply List.Forall_cons;
            [cbn; try destruct (String.eqb (key e) "Enter"); cbn;
             repeat constructor; auto|]);
    apply List.Forall_nil.
Qed.

Lemma fired_without_typing
      (p : Props) (st : State) (target : list nat) (ev : evname)
      (e : Event) (cs : list cmd) :
  openRename st = false ->
  fire (FileRendererComponent FILE_ICONS p st) target ev e = Some cs ->
  Forall (fun c => match c with setNewName _ => False | _ => True end) cs.
Proof.
  intros Hclosed Hf.
  eapply fire_Forall; [|exact Hf].
  intros h Hin. pose proof (rendered_handlers_allowed p st e) as Hall.
  rewrite List.Forall_forall in Hall.
  eapply List.Forall_impl; [|exact (Hall h Hin)].
  intros [] Hc; cbn in Hc; try exact I. congruence.
Qed.

(** Whatever the target and the event, the commands run by the row call
    only callbacks that were supplied, with the path of its file (select
    and remove) or with the identifier of its file and the current
    buffer (rename); the buffer is written and the editor is closed
    only while the editor is open. *)
Theorem dispatch_commands_allowed
        (p : Props) (st st' : State) (target : list nat) (ev : evname)
        (e : Event) (cs : list cmd) :
  dispatch FILE_ICONS p st target ev e = Some (st', cs) ->
  Forall (allowed p st) cs.
Proof.
  unfold dispatch. intros Hd.
  destruct (fire _ target ev e) as [cs'|] eqn:Hf; [|discriminate].
  injection Hd as _ <-. eapply fire_Forall; [|exact Hf].
  intros h Hin. pose proof (rendered_handlers_allowed p st e) as Hall.
  rewrite List.Forall_forall in Hall. now apply Hall.
Qed.

Lemma exec_keeps_buffer (cs : list cmd) (st : State) :
  Forall (fun c => match c with setNewName _ => False | _ => True end) cs ->
  newName (exec cs st) = newName st.
Proof.
  revert st. induction cs as [|c cs IH]; intros st Hcs; [reflexivity|].
  apply List.Forall_cons_iff in Hcs as [Hc Hcs].
  destruct c; cbn [exec]; try contradiction; now rewrite IH.
Qed.

(** While the editor is closed the buffer holds the name of the file:
    in every state reached from mounting by any sequence of events on
    the row, a closed editor comes with a buffer equal to the name. *)
Theorem closed_editor_buffer (p : Props) (st : State) :
  reachable FILE_ICONS p st ->
  openRename st = false ->
  newName st = name (file p).
Proof.
  induction 1 as [|st target ev e st' cs _ IH Hd]; [reflexivity|].
  intros Hclosed. unfold dispatch in Hd.
  destruct (fire _ target ev e) as [cs'|] eqn:Hf; [|discriminate].
  injection Hd as <- <-. unfold commit in *.
  destruct (Bool.eqb (openRename st) (openRename (exec cs' st))) eqn:Heq;
    [|reflexivity].
  apply Bool.eqb_prop in Heq. rewrite <- Heq in Hclosed.
  rewrite exec_keeps_buffer; [now apply IH|].
  now apply (fired_without_typing p st target ev e).
Qed.

(** A row whose progress is present and not zero (an upload under way,
    or the failure mark) is inert: a click on the row selects nothing
    and a double click on the name does not open the editor. *)
Theorem uploading_row_inert
        (p : Props) (st : State) (e : Event) (q : Q) :
  progress (file p) = Some q ->
  ~ q == 0 ->
  dispatch FILE_ICONS p st row_target onClick e = Some (st, [])
  /\ dispatch FILE_ICONS p st name_target onDoubleClick e
     = Some (st, if openRename st then [] else [stopPropagation]).
Proof.
  intros Hp Hq.
  assert (Hz : progress_falsy (file p) = false).
  { unfold progress_falsy. rewrite Hp.
    destruct (Qeq_bool q 0) eqn:H0; [|reflexivity].
    apply Qeq_bool_iff in H0. contradiction. }
  destruct st as [open buffer]. unfold dispatch, fire, FileRendererComponent.
  cbn -[progress_defined progress_failed progress_falsy]. rewrite Hz.
  destruct (handleFileSelect p), open; split; reflexivity.
Qed.

(** In the rename input a key other than Enter does nothing. *)
Theorem other_key_ignored (p : Props) (st : State) (e : Event) :
  openRename st = true ->
  key e <> "Enter" ->
  dispatch FILE_ICONS p st input_target onKeyDown e = Some (st, []).
Proof.
  destruct st as [open buffer], e as [k v]. cbn [openRename key].
  intros -> Hk. apply String.eqb_neq in Hk.
  unfold dispatch, fire, FileRendererComponent. cbn. rewrite Hk.
  destruct (handleFileSelect p); reflexivity.
Qed.

(** Typing then Enter: after the input reported the text [v], Enter
    closes the editor and the rename callback, when supplied, receives
    the identifier of the file and [v]. *)
Theorem typed_name_is_submitted
        (p : Props) (st : State) (typing : Event) (e : Event) :
  openRename st = true ->
  key e = "Enter" ->
  dispatch FILE_ICONS p st input_target onChange typing
  = Some ({| openRename := true; newName := target_value typing |},
          [setNewName (target_value typing)])
  /\ dispatch FILE_ICONS p
       {| openRename := true; newName := target_value typing |}
       input_target onKeyDown e
     = Some ({| openRename := false; newName := name (file p) |},
             setOpenRename false
             :: (if handleRename p
                 then [call_handleRename (id (file p)) (target_value typing)]
                 else [])).
Proof.
  destruct st as [open buffer], e as [k v]. cbn [openRename key].
  intros -> ->. unfold dispatch, fire, FileRendererComponent. cbn.
  destruct (handleFileSelect p), (handleRename p); split; reflexivity.
Qed.

(** The rename entry of the context menu, shown for a completed file
    when no remove callback is given, opens the editor only when a
    rename callback was supplied. *)
Theorem menu_rename_needs_callback (p : Props) (st : State) (e : Event) :
  handleRemove p = false ->
  progress (file p) = None ->
  option_map tag_of (node_at (FileRendererComponent FILE_ICONS p st) menu_target)
  = Some (Some "FilesContextMenuComponent")
  /\ dispatch FILE_ICONS p st menu_target menu_handleRename e
     = Some (if handleRename p
             then (if openRename st then st
                   else {| openRename := true; newName := name (file p) |},
                   [setOpenRename true])
             else (st, [])).
Proof.
  intros Hrm Hp. destruct st as [open buffer].
  unfold dispatch, fire, FileRendererComponent, progress_defined,
    progress_failed, progress_falsy.
  rewrite Hrm, Hp. cbn.
  destruct (handleFileSelect p), (handleRename p), open; split; reflexivity.
Qed.

(** The remove button calls the remove callback with the path of the
    file and stops the click there, also when the click lands on its
    icon: the row does not select the file. *)
Theorem remove_button_does_not_select (p : Props) (st : State) (e : Event) :
  handleRemove p = true ->
  dispatch FILE_ICONS p st [1]%nat onClick e
  = Some (st, [stopPropagation; call_handleRemove (path (file p))])
  /\ dispatch FILE_ICONS p st [1; 0]%nat onClick e
     = Some (st, [stopPropagation; call_handleRemove (path (file p))]).
Proof.
  intros Hrm. destruct st as [open buffer].
  unfold dispatch, fire, FileRendererComponent.
  cbn -[progress_defined progress_failed progress_falsy]. rewrite Hrm.
  destruct (handleFileSelect p); cbn; rewrite ?commit_same; split; reflexivity.
Qed.

(** The checkbox selects the file whatever its progress (only the row
    click is guarded), and a click on it is stopped by its wrapper, so
    the row does not select a second time. *)
Theorem checkbox_selects_once (p : Props) (st : State) (e : Event) :
  handleFileSelect p = true ->
  dispatch FILE_ICONS p st [0; 0; 0]%nat onCheckedChange e
  = Some (st, [call_handleFileSelect (path (file p))])
  /\ dispatch FILE_ICONS p st [0; 0; 0]%nat onClick e
     = Some (st, [stopPropagation]).
Proof.
  intros Hfs. destruct st as [open buffer].
  unfold dispatch, fire, FileRendererComponent.
  cbn -[progress_defined progress_failed progress_falsy]. rewrite Hfs.
  cbn. rewrite ?commit_same. split; reflexivity.
Qed.

(** While an upload is under way with a progress between 0 and 1, the
    icon slot shows a whole percentage between 0 and 100 followed by
    the percent sign: neither the rounding of the progress to a double
    nor that of the product takes the percentage out of the range. *)
Theorem percent_in_range (p : Props) (st : State) (q : Q) :
  progress (file p) = Some q ->
  (0 <= q)%Q -> (q <= 1)%Q ->
  exists n : Z,
    (0 <= n <= 100)%Z
    /\ option_map text_content
         (node_at (FileRendererComponent FILE_ICONS p st) icon_target)
       = Some (string_of_Z n ++ "%").
Proof.
  intros Hp H0 H1.
  exists (Double.Math_round (Double.times (Double.binary64 q) 100)). split.
  - now apply Math_round_percent.
  - assert (Hd : progress_defined (file p) = true)
      by (unfold progress_defined; now rewrite Hp).
    assert (Hf : progress_failed (file p) = false).
    { unfold progress_failed. rewrite Hp.
      destruct (Qeq_bool q (-1)) eqn:Hm; [|reflexivity].
      apply Qeq_bool_iff in Hm. rewrite Hm in H0.
      exfalso. apply H0. reflexivity. }
    unfold FileRendererComponent.
    cbn -[progress_defined progress_failed progress_falsy percent].
    rewrite Hd, Hf. unfold percent. rewrite Hp.
    destruct (handleFileSelect p); reflexivity.
Qed.

End FileRendererRunsFacts.

Section FileRendererRunsWitnesses.

Import FileRenderer FileRendererRuns Samples.

Lemma closed_editor_buffer_witness :
  newName (mount (row None)) = "report".
Proof.
  refine (closed_editor_buffer icons (row None) (mount (row None)) _ eq_refl).
  refine (reach_dispatch icons (row None) (editing "summary") input_target
            onBlur enter _ _ _ eq_refl).
  refine (reach_dispatch icons (row None) (editing "report") input_target
            onChange {| key := ""; target_value := "summary" |} _ _ _ eq_refl).
  refine (reach_dispatch icons (row None) (mount (row None)) name_target
            onDoubleClick enter _ _ _ eq_refl).
  apply reach_mount.
Defined.

Lemma dispatch_commands_allowed_witness :
  Forall (allowed (row None) (editing "summary"))
    [setOpenRename false; call_handleRename "file-7" "summary"].
Proof.
  exact (dispatch_commands_allowed icons (row None) (editing "summary")
           (mount (row None)) input_target onBlur enter _ eq_refl).
Defined.

Lemma uploading_row_inert_witness :
  dispatch icons (row failed) (mount (row failed)) row_target onClick enter
  = Some (mount (row failed), [])
  /\ dispatch icons (row failed) (mount (row failed))
       name_target onDoubleClick enter
     = Some (mount (row failed), [stopPropagation]).
Proof.
  refine (uploading_row_inert icons (row failed) (mount (row failed)) enter
            (-1)%Q eq_refl _).
  discriminate.
Defined.

Lemma other_key_ignored_witness :
  dispatch icons (row None) (editing "summary") input_target onKeyDown
    {| key := "a"; target_value := "" |}
  = Some (editing "summary", []).
Proof.
  refine (other_key_ignored icons (row None) (editing "summary")
            {| key := "a"; target_value := "" |} eq_refl _).
  discriminate.
Defined.

Lemma typed_name_is_submitted_witness :
  dispatch icons (row None) (editing "summary") input_target onKeyDown enter
  = Some (mount (row None),
          [setOpenRename false; call_handleRename "file-7" "summary"]).
Proof.
  exact (proj2 (typed_name_is_submitted icons (row None) (editing "report")
                  {| key := ""; target_value := "summary" |} enter
                  eq_refl eq_refl)).
Defined.

Lemma menu_rename_needs_callback_witness :
  dispatch icons (row None) (mount (row None)) menu_target menu_handleRename enter
  = Some (editing "report", [setOpenRename true]).
Proof.
  exact (proj2 (menu_rename_needs_callback icons (row None) (mount (row None))
                  enter eq_refl eq_refl)).
Defined.

Lemma remove_button_does_not_select_witness :
  dispatch icons (removable started) (mount (removable started))
    [1; 0]%nat onClick enter
  = Some (mount (removable started),
          [stopPropagation; call_handleRemove "docs/report.v2.xyz"]).
Proof.
  exact (proj2 (remove_button_does_not_select icons (removable started)
                  (mount (removable started)) enter eq_refl)).
Defined.

Lemma checkbox_selects_once_witness :
  dispatch icons (row (Some (1 # 2))) (mount (row (Some (1 # 2))))
    [0; 0; 0]%nat onCheckedChange enter
  = Some (mount (row (Some (1 # 2))),
          [call_handleFileSelect "docs/report.v2.xyz"]).
Proof.
  exact (proj1 (checkbox_selects_once icons (row (Some (1 # 2)))
                  (mount (row (Some (1 # 2)))) enter eq_refl)).
Defined.

Lemma percent_in_range_witness :
  (exists n : Z,
     (0 <= n <= 100)%Z
     /\ option_map text_content
          (node_at (FileRendererComponent icons (row (Some (285 # 1000)))
                      (mount (row (Some (285 # 1000))))) icon_target)
        = Some (string_of_Z n ++ "%"))
  /\ option_map text_content
       (node_at (FileRendererComponent icons (row (Some (285 # 1000)))
                   (mount (row (Some (285 # 1000))))) icon_target)
     = Some "28%".
Proof.
  split; [|vm_compute; reflexivity].
  refine (percent_in_range icons (row (Some (285 # 1000)))
            (mount (row (Some (285 # 1000)))) (285 # 1000) eq_refl _ _);
    discriminate.
Defined.

End FileRendererRunsWitnesses.

(** ** Events in rendered output, in general *)

Section DomFacts.

Import Dom.

Variables (payload cmd : Type) (stops : cmd -> bool).

Lemma dom_handler_of_all (n : node payload cmd) (ev : string)
      (h : handler payload cmd) :
  In h (handler_of n ev) -> In h (all_handlers n).
Proof.
  destruct n as [s|tag attrs handlers children|]; cbn; try tauto.
  destruct (List.find _ handlers) as [[ev' h']|] eqn:Hf; cbn; [|tauto].
  intros [<-|[]]. apply List.find_some in Hf as [Hin _].
  apply List.in_or_app. left.
  apply (List.in_map snd) in Hin. exact Hin.
Qed.

Lemma dom_child_all (c : node payload cmd) (i : nat) (h : handler payload cmd)
      (tag : string) (attrs : list (string * attr (node payload cmd)))
      (handlers : list (string * handler payload cmd))
      (children : list (node payload cmd)) :
  children !! i = Some c ->
  In h (all_handlers c) -> In h (all_handlers (Elem tag attrs handlers children)).
Proof.
  intros Hc Hh. cbn. apply List.in_or_app. right.
  apply List.in_flat_map. exists c. split; [|exact Hh].
  apply list_elem_of_In. eapply list_elem_of_lookup_2. exact Hc.
Qed.

Lemma dom_propagation_all (target : list nat) (n : node payload cmd)
      (ev : string) (hs : list (handler payload cmd)) (h : handler payload cmd) :
  propagation_path n target ev = Some hs -> In h hs -> In h (all_handlers n).
Proof.
  revert n hs. induction target as [|i rest IH]; intros n hs;
    cbn [propagation_path].
  - destruct n; intros [= <-] Hin; try discriminate;
      match goal with
      | |- In _ (all_handlers ?n) => exact (dom_handler_of_all n ev h Hin)
      end.
  - destruct n as [s|tag attrs handlers children|]; try discriminate.
    destruct (children !! i) as [c|] eqn:Hc; [|discriminate].
    destruct (propagation_path c rest ev) as [hs'|] eqn:Hp; [|discriminate].
    intros [= <-] Hin. apply List.in_app_or in Hin as [Hin|Hin].
    + eapply dom_child_all; eauto.
    + exact (dom_handler_of_all (Elem tag attrs handlers children) ev h Hin).
Qed.

Lemma dom_node_at_all (target : list nat) (n m : node payload cmd)
      (h : handler payload cmd) :
  node_at n target = Some m -> In h (all_handlers m) -> In h (all_handlers n).
Proof.
  revert n. induction target as [|i rest IH]; intros n; cbn [node_at].
  - now intros [= ->].
  - destruct n as [s|tag attrs handlers children|]; try discriminate.
    destruct (children !! i) as [c|] eqn:Hc; [|discriminate].
    intros Hm Hh. eapply dom_child_all; eauto.
Qed.

Lemma dom_bubble_Forall (P : cmd -> Prop) (hs : list (handler payload cmd))
      (e : payload) :
  (forall h, In h hs -> Forall P (h e)) -> Forall P (bubble stops hs e).
Proof.
  induction hs as [|h hs IH]; intros H; cbn; [constructor|].
  destruct (existsb stops (h e)).
  - apply H. now left.
  - apply Forall_app. split; [apply H; now left|].
    apply IH. intros h' Hin. apply H. now right.
Qed.

(** The commands run by an event come from handlers of the output. *)
Lemma dom_fire_Forall (P : cmd -> Prop) (tree : node payload cmd)
      (target : list nat) (ev : string) (e : payload) (cs : list cmd) :
  (forall h, In h (all_handlers tree) -> Forall P (h e)) ->
  fire stops tree target ev e = Some cs -> Forall P cs.
Proof.
  intros H. unfold fire.
  destruct (propagation_path tree target ev) as [hs|] eqn:Hp; [|discriminate].
  intros [= <-]. destruct (bubbles ev).
  - apply dom_bubble_Forall. intros h Hin. apply H.
    eapply dom_propagation_all; eauto.
  - destruct (node_at tree target) as [n|] eqn:Hn; [|constructor].
    apply Forall_forall. intros c Hc.
    apply list_elem_of_In, List.in_flat_map in Hc as (h & Hh & Hc).
    assert (Hall : Forall P (h e)).
    { apply H. eapply dom_node_at_all; eauto.
      exact (dom_handler_of_all n ev h Hh). }
    rewrite Forall_forall in Hall. apply Hall. now apply list_elem_of_In.
Qed.

End DomFacts.

(** ** Properties of the list of files *)

Section FilesRendererFacts.

Import Dom FilesRenderer.

Variable FILE_ICONS : gmap string FileRenderer.IconEntry.

Lemma row_None (p : Props) (file : File) :
  row FILE_ICONS p file = None <-> get FILE_ICONS (type file) = Missing.
Proof.
  unfold row. destruct (get FILE_ICONS (type file)); split; congruence.
Qed.

Lemma rendered_rows (p : Props) (rows : list (node unit cmd)) (i : nat)
      (r : node unit cmd) :
  FilesRendererComponent FILE_ICONS p = Some rows ->
  rows !! i = Some r ->
  exists file, files p !! i = Some file /\ row FILE_ICONS p file = Some r.
Proof.
  unfold FilesRendererComponent. intros Hm Hr. apply mapM_Some in Hm.
  destruct (Forall2_lookup_r _ _ _ _ _ Hm Hr) as (file & Hf & Hrow).
  eauto.
Qed.

(** Rendering the list fails, with the TypeError of reading [icon] of
    undefined, exactly when the type of some file has no value in
    FILE_ICONS, neither its own nor an inherited one; otherwise there
    is one row per file. *)
Theorem FilesRendererComponent_unknown_type (p : Props) :
  (FilesRendererComponent FILE_ICONS p = None
   <-> Exists (fun file => get FILE_ICONS (type file) = Missing) (files p))
  /\ (forall rows, FilesRendererComponent FILE_ICONS p = Some rows ->
                   length rows = length (files p)).
Proof.
  unfold FilesRendererComponent. split.
  - rewrite mapM_None.
    split; intros H; (eapply Exists_impl; [exact H|]);
      intros file Hf; cbn in *; now apply (row_None p file).
  - intros rows Hm. apply mapM_Some, Forall2_length in Hm. now symmetry.
Qed.

Lemma rendered_row (p : Props) (rows : list (node unit cmd)) (i : nat)
      (file : File) :
  FilesRendererComponent FILE_ICONS p = Some rows ->
  files p !! i = Some file ->
  exists r, rows !! i = Some r /\ row FILE_ICONS p file = Some r.
Proof.
  unfold FilesRendererComponent. intros Hm Hf. apply mapM_Some in Hm.
  destruct (Forall2_lookup_l _ _ _ _ _ Hm Hf) as (r & Hr & Hrow).
  eauto.
Qed.

Lemma dispatch_in_row (p : Props) (rows : list (node unit cmd)) (i : nat)
      (file : File) (target : list nat) (ev : string) :
  FilesRendererComponent FILE_ICONS p = Some rows ->
  files p !! i = Some file ->
  exists r, row FILE_ICONS p file = Some r
            /\ dispatch FILE_ICONS p i target ev = fire stops r target ev tt.
Proof.
  intros Hm Hf. destruct (rendered_row p rows i file Hm Hf) as (r & Hr & Hrow).
  exists r. split; [exact Hrow|]. unfold dispatch. now rewrite Hm, Hr.
Qed.

(** The button at the end of a row stops the click there: the row does
    not select the file. With a delete callback it calls it with the
    name of the file of that row; without one it only logs. The same
    holds when the click lands on the icon inside the button. *)
Theorem row_button_click
        (p : Props) (rows : list (node unit cmd)) (i : nat) (file : File) :
  FilesRendererComponent FILE_ICONS p = Some rows ->
  files p !! i = Some file ->
  dispatch FILE_ICONS p i button_target "onClick"
  = Some (stopPropagation
          :: (if handleDelete p then [call_handleDelete (name file)]
              else [console_log "oiee"]))
  /\ dispatch FILE_ICONS p i [1; 0]%nat "onClick"
     = dispatch FILE_ICONS p i button_target "onClick".
Proof.
  intros Hm Hf.
  destruct (dispatch_in_row p rows i file button_target "onClick" Hm Hf)
    as (r & Hrow & ->).
  destruct (dispatch_in_row p rows i file [1; 0]%nat "onClick" Hm Hf)
    as (r' & Hrow' & ->).
  rewrite Hrow in Hrow'. injection Hrow' as <-.
  unfold row in Hrow.
  destruct (get FILE_ICONS (type file)); try discriminate;
    injection Hrow as <-;
    destruct (handleFileSelect p), (handleDelete p); split; reflexivity.
Qed.

(** A click on a row, or on the name shown in it, selects the file of
    that row by its name when a select callback was supplied, and does
    nothing otherwise. The checkbox, which exists only with a select
    callback, selects by the same name, and a click on it is stopped
    by its wrapper before it reaches the row. *)
Theorem row_click_selects
        (p : Props) (rows : list (node unit cmd)) (i : nat) (file : File) :
  FilesRendererComponent FILE_ICONS p = Some rows ->
  files p !! i = Some file ->
  dispatch FILE_ICONS p i row_target "onClick"
  = Some (if handleFileSelect p
          then [call_handleFileSelect (name file)] else [])
  /\ dispatch FILE_ICONS p i name_target "onClick"
     = dispatch FILE_ICONS p i row_target "onClick"
  /\ dispatch FILE_ICONS p i checkbox_target "onCheckedChange"
     = (if handleFileSelect p
        then Some [call_handleFileSelect (name file)] else None)
  /\ dispatch FILE_ICONS p i checkbox_target "onClick"
     = (if handleFileSelect p then Some [stopPropagation] else None).
Proof.
  intros Hm Hf.
  destruct (dispatch_in_row p rows i file row_target "onClick" Hm Hf)
    as (r & Hrow & ->).
  destruct (dispatch_in_row p rows i file name_target "onClick" Hm Hf)
    as (r1 & Hrow1 & ->).
  destruct (dispatch_in_row p rows i file checkbox_target "onCheckedChange" Hm Hf)
    as (r2 & Hrow2 & ->).
  destruct (dispatch_in_row p rows i file checkbox_target "onClick" Hm Hf)
    as (r3 & Hrow3 & ->).
  rewrite Hrow in Hrow1, Hrow2, Hrow3.
  injection Hrow1 as <-. injection Hrow2 as <-. injection Hrow3 as <-.
  unfold row in Hrow.
  destruct (get FILE_ICONS (type file)); try discriminate;
    injection Hrow as <-;
    destruct (handleFileSelect p), (handleDelete p); repeat split; reflexivity.
Qed.

Lemma row_handlers_allowed (p : Props) (file : File) (r : node unit cmd) :
  row FILE_ICONS p file = Some r ->
  Forall (fun h : handler unit cmd => Forall (allowed p file) (h tt))
    (all_handlers r).
Proof.
  unfold row. destruct p as [fs hfs sel hd]. cbn.
  destruct (get FILE_ICONS (type file)); try discriminate;
    intros [= <-]; destruct hfs, hd; cbn;
    repeat (apply List.Forall_cons; [cbn; repeat constructor; auto|]);
    apply List.Forall_nil.
Qed.

(** Whatever the target and the event inside the [i]-th row, the
    callbacks called are ones that were supplied, and they receive the
    name of the [i]-th file and no other. *)
Theorem row_commands_allowed
        (p : Props) (i : nat) (file : File) (target : list nat) (ev : string)
        (cs : list cmd) :
  files p !! i = Some file ->
  dispatch FILE_ICONS p i target ev = Some cs ->
  Forall (allowed p file) cs.
Proof.
  intros Hf. unfold dispatch.
  destruct (FilesRendererComponent FILE_ICONS p) as [rows|] eqn:Hm;
    [|discriminate].
  destruct (rendered_row p rows i file Hm Hf) as (r & -> & Hrow).
  intros Hfire.
  eapply (dom_fire_Forall unit cmd stops (allowed p file)); [|exact Hfire].
  intros h Hin. pose proof (row_handlers_allowed p file r Hrow) as Hall.
  rewrite List.Forall_forall in Hall. now apply Hall.
Qed.

End FilesRendererFacts.

Section FilesRendererWitnesses.

Import Dom FilesRenderer Samples.

Lemma row_button_click_witness :
  dispatch icons listing 1 button_target "onClick"
  = Some [stopPropagation; call_handleDelete "b.json"].
Proof.
  exact (proj1 (row_button_click icons listing _ 1
                  {| name := "b.json"; type := "json"; size := "2 kB" |}
                  eq_refl eq_refl)).
Defined.

Lemma row_click_selects_witness :
  dispatch icons listing 0 row_target "onClick"
  = Some [call_handleFileSelect "a.json"].
Proof.
  exact (proj1 (row_click_selects icons listing _ 0
                  {| name := "a.json"; type := "json"; size := "1 kB" |}
                  eq_refl eq_refl)).
Defined.

Lemma row_commands_allowed_witness :
  Forall (allowed listing {| name := "b.json"; type := "json"; size := "2 kB" |})
    [call_handleFileSelect "b.json"].
Proof.
  exact (row_commands_allowed icons listing 1
           {| name := "b.json"; type := "json"; size := "2 kB" |}
           [0; 1; 2; 0]%nat "onClick" _ eq_refl eq_refl).
Defined.

End FilesRendererWitnesses.

(** ** Properties of the API access modal *)

Section ApiModalFacts.

Import Dom ApiCode ApiModal.

Variable w : World.
Variable children : list (node bool cmd).

(** Unless both [open] and [setOpen] are supplied, the component keeps
    the state itself: it mounts closed whatever [open] says, without
    setting up the tweaks, and a [setOpen] from the modal changes the
    local state, never reaching a supplied [setOpen]; the tweaks are
    set up from the nodes of the flow exactly when that opens a closed
    modal. *)
Theorem uncontrolled_modal (p : Props) (st : State) (b : bool) (n : nat) :
  controlled p = false ->
  Object_keys_length (tweaks w) = Some n ->
  mount w p = ({| openTweaks := false; localOpen := false |}, [])
  /\ dispatch w children p st 0 [] "setOpen" b
     = Some ({| openTweaks := openTweaks st; localOpen := b |},
             setLocalOpen b
             :: (if negb (localOpen st) && b
                 then [call_newInitialSetup (nodes (flowStore w))] else [])).
Proof.
  intros Hc Hn. destruct st as [tweaksOpen isOpen].
  destruct p as [[o|] [|]]; cbn in Hc; try discriminate;
    (split; [reflexivity|]); unfold dispatch, ApiModal; rewrite Hn;
    destruct (Nat.ltb 0 (length (nodes (flowStore w)))); cbn;
    destruct isOpen, b; reflexivity.
Qed.

(** With both [open] and [setOpen] supplied, a [setOpen] from the modal
    is passed on to the supplied one and changes nothing locally; the
    tweaks are set up from the nodes of the flow when the component is
    rendered again with [open] turned from false to true, and not when
    it is turned back. *)
Theorem controlled_modal (st : State) (b : bool) (n : nat) :
  Object_keys_length (tweaks w) = Some n ->
  dispatch w children {| myOpen := Some false; mySetOpen := true |} st
    0 [] "setOpen" b
  = Some (st, [call_mySetOpen b])
  /\ dispatch w children {| myOpen := Some true; mySetOpen := true |} st
       0 [] "setOpen" b
     = Some (st, [call_mySetOpen b])
  /\ rerender w ({| myOpen := Some false; mySetOpen := true |}, st)
       ({| myOpen := Some true; mySetOpen := true |}, st)
     = [call_newInitialSetup (nodes (flowStore w))]
  /\ rerender w ({| myOpen := Some true; mySetOpen := true |}, st)
       ({| myOpen := Some false; mySetOpen := true |}, st)
     = [].
Proof.
  intros Hn. destruct st as [tweaksOpen isOpen].
  repeat split; try reflexivity;
    unfold dispatch, ApiModal; rewrite Hn;
    destruct (Nat.ltb 0 (length (nodes (flowStore w)))); reflexivity.
Qed.

(** For a flow without nodes the header shows no overrides button and
    the tweaks are not read. For a flow with nodes the button reads
    Temporary overrides (n) with n the number of keys of the tweaks,
    and a click on it, or on its label, opens the tweaks modal and
    does nothing else. *)
Theorem overrides_button_counts (p : Props) (st : State) (e : bool) :
  match nodes (flowStore w) with
  | [] =>
      exists main tweaksModal,
        ApiModal w children p st = Some [main; tweaksModal]
        /\ node_at main [1; 2]%nat = Some Nothing
  | _ :: _ =>
      match Object_keys_length (tweaks w) with
      | None => ApiModal w children p st = None
      | Some n =>
          (exists main tweaksModal,
             ApiModal w children p st = Some [main; tweaksModal]
             /\ option_map text_content (node_at main overrides_button)
                = Some ("Temporary overrides (" ++ string_of_Z (Z.of_nat n) ++ ") "))
          /\ dispatch w children p st 0 overrides_button "onClick" e
             = Some ({| openTweaks := true; localOpen := localOpen st |},
                     [setOpenTweaks true])
          /\ dispatch w children p st 0 [1; 2; 0; 1]%nat "onClick" e
             = Some ({| openTweaks := true; localOpen := localOpen st |},
                     [setOpenTweaks true])
      end
  end.
Proof.
  destruct st as [tweaksOpen isOpen]. unfold dispatch, ApiModal.
  destruct (nodes (flowStore w)) as [|x l]; cbn [length Nat.ltb Nat.leb].
  - eexists. eexists. split; reflexivity.
  - destruct (Object_keys_length (tweaks w)) as [n|]; [|reflexivity].
    split; [|split].
    + eexists. eexists. split; [reflexivity|]. cbn.
      first [reflexivity | normal_text; reflexivity].
    + cbn. unfold rerender, open. cbn.
      destruct (myOpen p) as [[|]|], (mySetOpen p), isOpen; reflexivity.
    + cbn. unfold rerender, open. cbn.
      destruct (myOpen p) as [[|]|], (mySetOpen p), isOpen; reflexivity.
Qed.

(** Whatever the target and the event, when the caller's trigger
    carries no handler of its own: the tweaks are set up only from the
    nodes of the flow and only by an interaction that opens a closed
    modal; the supplied [setOpen] is called only by a controlled
    component and the local state is written only by an uncontrolled
    one. *)
Theorem modal_commands_allowed
        (p : Props) (st st' : State) (i : nat) (target : list nat)
        (ev : string) (e : bool) (cs : list cmd) :
  List.flat_map all_handlers children = [] ->
  dispatch w children p st i target ev e = Some (st', cs) ->
  Forall (allowed w p st st') cs.
Proof.
  intros Hch. unfold dispatch.
  destruct (ApiModal w children p st) as [roots|] eqn:Hr; [|discriminate].
  destruct (roots !! i) as [r|] eqn:Hi; [|discriminate].
  destruct (fire stops r target ev e) as [cs0|] eqn:Hf; [|discriminate].
  intros [= <- <-]. apply Forall_app. split.
  - eapply (dom_fire_Forall bool cmd stops); [|exact Hf].
    intros h Hin.
    assert (Hall : Forall (fun h : handler bool cmd =>
                             Forall (allowed w p st (exec cs0 st)) (h e))
                     (List.flat_map all_handlers roots)).
    { unfold ApiModal in Hr.
      destruct (Nat.ltb 0 (length (nodes (flowStore w))));
        [destruct (Object_keys_length (tweaks w)); [|discriminate]|];
        injection Hr as <-; destruct (open p st); cbn; rewrite Hch; cbn;
        repeat (apply List.Forall_cons;
                [unfold setOpen; cbn; try destruct (controlled p) eqn:Hc;
                 repeat constructor; auto|]);
        apply List.Forall_nil. }
    rewrite List.Forall_forall in Hall. apply Hall.
    apply List.in_flat_map. exists r. split; [|exact Hin].
    apply list_elem_of_In. eapply list_elem_of_lookup_2. exact Hi.
  - unfold rerender, effect. cbn [fst snd].
    destruct (open p st) eqn:Ho, (open p (exec cs0 st)) eqn:Ho';
      cbn; repeat constructor; auto.
Qed.

End ApiModalFacts.

Section ApiModalWitnesses.

Import Dom ApiCode ApiModal Samples.

Lemma uncontrolled_modal_witness :
  dispatch (world chat_store) [] {| myOpen := Some true; mySetOpen := false |}
    {| openTweaks := false; localOpen := false |} 0 [] "setOpen" true
  = Some ({| openTweaks := false; localOpen := true |},
          [setLocalOpen true;
           call_newInitialSetup ["ChatInput-1"; "ChatOutput-1"]]).
Proof.
  exact (proj2 (uncontrolled_modal (world chat_store) []
                  {| myOpen := Some true; mySetOpen := false |}
                  {| openTweaks := false; localOpen := false |} true 0
                  eq_refl eq_refl)).
Defined.

Lemma controlled_modal_witness :
  dispatch (world chat_store) [] {| myOpen := Some false; mySetOpen := true |}
    {| openTweaks := false; localOpen := false |} 0 [] "setOpen" true
  = Some ({| openTweaks := false; localOpen := false |}, [call_mySetOpen true]).
Proof.
  exact (proj1 (controlled_modal (world chat_store) []
                  {| openTweaks := false; localOpen := false |} true 0
                  eq_refl)).
Defined.

Lemma modal_commands_allowed_witness :
  Forall (allowed (world chat_store)
            {| myOpen := None; mySetOpen := true |}
            {| openTweaks := false; localOpen := false |}
            {| openTweaks := false; localOpen := true |})
    [setLocalOpen true; call_newInitialSetup ["ChatInput-1"; "ChatOutput-1"]].
Proof.
  exact (modal_commands_allowed (world chat_store) []
           {| myOpen := None; mySetOpen := true |}
           {| openTweaks := false; localOpen := false |} _ 0 [] "setOpen" true _
           eq_refl eq_refl).
Defined.

End ApiModalWitnesses.
